(** * Input fusion and orientation control of the JARVIS HUD

    A shallow embedding of the control logic of the two copies of the
    application: [src/unnamed/part_000] (the version with the voice priority
    window) and [src/src/App.tsx] (the version without it).

    Modelling conventions.
    - A JavaScript number is an exact rational ([Q]): the rounding of binary64
      arithmetic is not modelled, neither are NaN and the infinities.
      Comparisons, [Math.max], [Math.min] and the [%] operator are the exact
      ones.  [Math.PI] is the rational value of the binary64 constant.  What
      is proved on this model is the control flow and the ranges, which
      rounding keeps.  Where the exact value of a result matters, the
      function is modelled a second time on binary64 numbers ([lerp64],
      [smooth64]), as the code evaluates it.
    - [Date.now()] is an integer number of milliseconds ([Z]).
    - A string is a [string] holding the UTF-8 bytes of the text; substring
      containment of well-formed texts is the same on bytes and on UTF-16
      code units.
    - The runtime functions [Math.sqrt], [String.prototype.trim],
      [String.prototype.toLowerCase] and [String.prototype.toUpperCase] are
      parameters of the development.
    - React refs and state cells are fields of a record that is threaded
      through the callbacks; a callback that can raise a [TypeError]
      returns an [option].  The voice hook stores a new object in
      [earthRotation.current] at every match and the detect loop writes the
      fields of the current one; no object is held twice, so the record holds
      the value. *)

From Stdlib Require Import QArith Qabs Qminmax Qround Lqa ZArith List Bool String
  Ascii DecimalString Lia.
From Stdlib Require Import Floats.
Import ListNotations.
Open Scope Q_scope.
#[local] Set Warnings "-inexact-float".

(** ** Numbers *)

(** [a < b], [a > b] and [a >= b] as the boolean tests the code evaluates. *)
Definition Qltb (a b : Q) : bool := negb (Qle_bool b a).
Definition Qgtb (a b : Q) : bool := negb (Qle_bool a b).
Definition Qgeb (a b : Q) : bool := Qle_bool b a.

Definition Math_max (a b : Q) : Q := if Qle_bool a b then b else a.
Definition Math_min (a b : Q) : Q := if Qle_bool a b then a else b.

(** [Math.PI], the binary64 number 3.141592653589793 = 884279719003555 / 2^48. *)
Definition Math_PI : Q := 884279719003555 # 281474976710656.

(** [Math.pow(b, 2)], the only use of [Math.pow] in the source. *)
Definition Math_pow (b : Q) (e : Z) : Q := Qpower b e.

(** Truncation toward zero and the remainder operator [%], whose result has
    the sign of the dividend. *)
Definition Qtrunc (q : Q) : Z := Z.quot (Qnum q) (Zpos (Qden q)).
Definition js_rem (a b : Q) : Q := a - b * inject_Z (Qtrunc (a / b)).

(** ** Data *)

(** [{ x: number, y: number }]: a landmark, a rotation target, a panel
    position. *)
Record Vec2 : Type := mkVec2 { x : Q; y : Q }.

(** One detected hand: the array of its landmarks. *)
Definition HandSample : Type := list Vec2.

(** An entry of [CONTINENTS]: [{ name, rad: [lo, hi] }]. *)
Record Continent : Type := mkContinent { name : string; rad : Q * Q }.

Definition CONTINENTS : list Continent :=
  [ mkContinent "AFRICA (非洲)" (0, 1.2);
    mkContinent "ASIA (亚洲)" (1.2, 2.5);
    mkContinent "PACIFIC (太平洋)" (2.5, 4.0);
    mkContinent "AMERICAS (美洲)" (4.0, 5.5);
    mkContinent "EUROPE (欧洲)" (5.5, 6.28) ].

(** The pose of the three.js group behind [earthRef]: the Euler angles that
    the callback writes and the three scale components. *)
Record Earth : Type := mkEarth {
  rotation_x : Q;
  rotation_y : Q;
  scale_x : Q;
  scale_y : Q;
  scale_z : Q
}.

(** The cells owned by [JarvisHUD]: the refs [earthRotation] and
    [earthScale], the state cells [handStatus], [activeContinent] and
    [panelUI], and [earthRef.current] of the mounted globe ([None] for
    [null]). *)
Record Hud : Type := mkHud {
  earthRotation : Vec2;
  earthScale : Q;
  handStatus : string;
  activeContinent : string;
  panelUI : Vec2;
  earthRef : option Earth
}.

(** [part_000] adds the ref [lastCmdTimeRef] of the voice hook. *)
Record Jarvis : Type := mkJarvis {
  hud : Hud;
  lastCmdTimeRef : Z
}.

Definition set_earthRotation (r : Vec2) (h : Hud) : Hud :=
  mkHud r (earthScale h) (handStatus h) (activeContinent h) (panelUI h) (earthRef h).
Definition set_earthScale (s : Q) (h : Hud) : Hud :=
  mkHud (earthRotation h) s (handStatus h) (activeContinent h) (panelUI h) (earthRef h).
Definition setHandStatus (s : string) (h : Hud) : Hud :=
  mkHud (earthRotation h) (earthScale h) s (activeContinent h) (panelUI h) (earthRef h).
Definition setContinent (s : string) (h : Hud) : Hud :=
  mkHud (earthRotation h) (earthScale h) (handStatus h) s (panelUI h) (earthRef h).
Definition setPanelUI (p : Vec2) (h : Hud) : Hud :=
  mkHud (earthRotation h) (earthScale h) (handStatus h) (activeContinent h) p (earthRef h).
Definition set_earthRef (e : option Earth) (h : Hud) : Hud :=
  mkHud (earthRotation h) (earthScale h) (handStatus h) (activeContinent h) (panelUI h) e.

Definition with_hud (f : Hud -> Hud) (j : Jarvis) : Jarvis :=
  mkJarvis (f (hud j)) (lastCmdTimeRef j).

(** [earthRotation = { x: 0, y: 0 }], [earthScale = 1], the initial React
    state with a window [innerWidth] wide, [lastCmdTimeRef = 0], and the globe
    at the pose three.js gives a new group (no rotation, unit scale). *)
Definition Earth0 : Earth := mkEarth 0 0 1 1 1.
Definition Hud0 (innerWidth : Q) : Hud :=
  mkHud (mkVec2 0 0) 1 "INIT VISION..." "SCANNING..."
        (mkVec2 (innerWidth - 320) 100) (Some Earth0).
Definition Jarvis0 (innerWidth : Q) : Jarvis := mkJarvis (Hud0 innerWidth) 0.

(** ** Helpers of the source *)

Definition lerp (start end_ t : Q) : Q := start * (1 - t) + end_ * t.

(** [lerp] as the code evaluates it: on binary64 numbers, every operation
    rounded to nearest. *)
Definition lerp64 (start end_ t : PrimFloat.float) : PrimFloat.float :=
  PrimFloat.add (PrimFloat.mul start (PrimFloat.sub 1%float t))
                (PrimFloat.mul end_ t).

(** [text.includes(sub)]. *)
Fixpoint includes (text sub : string) {struct text} : bool :=
  String.prefix sub text ||
  match text with
  | EmptyString => false
  | String _ rest => includes rest sub
  end.

(** The double quote, for the status line. *)
Definition dquote : string := String (ascii_of_nat 34) EmptyString.

(** The test of [CONTINENTS.find]. *)
Definition in_rad (adjustedRot : Q) (c : Continent) : bool :=
  Qgeb adjustedRot (fst (rad c)) && Qltb adjustedRot (snd (rad c)).

(** [normalizedRot] and [adjustedRot] of the render callback. *)
Definition normalizedRot (rot_y : Q) : Q :=
  js_rem (js_rem rot_y (Math_PI * 2) + Math_PI * 2) (Math_PI * 2).
Definition adjustedRot (rot_y : Q) : Q := Math_PI * 2 - normalizedRot rot_y.

(** The raw scale of the detect loop, [Math.max(0.5, Math.min(2.5, pinch * 8))]. *)
Definition rawScale (pinch : Q) : Q := Math_max 0.5 (Math_min 2.5 (pinch * 8)).

(** ** Named notions of the specification *)

(** The role of a hand, as the branch on [wrist.x > 0.5] assigns it. *)
Inductive Role : Type := Orientation | Pointer.

Definition role_of (wrist : Vec2) : Role :=
  if Qgtb (x wrist) 0.5 then Orientation else Pointer.

(** The gesture rotation [((landmark9.y - 0.5) * 4, (landmark9.x - 0.5) * 8)]. *)
Definition gestureRotation (mid : Vec2) : Vec2 :=
  mkVec2 ((y mid - 0.5) * 4) ((x mid - 0.5) * 8).

(** The four landmarks the detect loop reads in a hand: [landmarks[0]],
    [landmarks[4]], [landmarks[8]] and [landmarks[9]]. *)
Definition hand_at (landmarks : HandSample)
    (wrist thumbTip indexTip mid : Vec2) : Prop :=
  nth_error landmarks 0 = Some wrist /\ nth_error landmarks 4 = Some thumbTip /\
  nth_error landmarks 8 = Some indexTip /\ nth_error landmarks 9 = Some mid.

(** The sector of a reflected angle: what [CONTINENTS.find] returns. *)
Definition sector_of (a : Q) : option Continent := find (in_rad a) CONTINENTS.

(** The reflected angle the render callback of [part_000] classifies in a
    frame, when the globe is mounted. *)
Definition frameAngle (h : Hud) : option Q :=
  option_map (fun e => adjustedRot (lerp (rotation_y e) (y (earthRotation h)) 0.05))
             (earthRef h).

(** The keyword table of the voice hook as the specification words it: the
    entries in order, each with its keywords and the rotation bound to it. *)
Definition VOICE_TABLE : list (list string * Vec2) :=
  [ (["africa"; "非洲"]%string, mkVec2 0 0.5);
    (["asia"; "china"; "亚洲"; "中国"]%string, mkVec2 0.2 2.0);
    (["america"; "usa"; "美洲"; "美国"]%string, mkVec2 0 4.8);
    (["europe"; "欧洲"]%string, mkVec2 0.3 5.8);
    (["reset"; "stop"; "重置"]%string, mkVec2 0 0) ].

(** The rotation of the first entry one of whose keywords the text contains. *)
Definition voiceTarget (text : string) : option Vec2 :=
  option_map snd (find (fun e => existsb (includes text) (fst e)) VOICE_TABLE).

(** The smoothed value after [n] render frames toward a fixed target:
    [s0 = s], [s(n+1) = lerp(sn, target, alpha)], in exact arithmetic. *)
Fixpoint smooth (alpha target : Q) (n : nat) (s : Q) : Q :=
  match n with
  | O => s
  | S n' => lerp (smooth alpha target n' s) target alpha
  end.

(** The same sequence on binary64 numbers, as the render callback computes
    it. *)
Fixpoint smooth64 (alpha target : PrimFloat.float) (n : nat)
    (s : PrimFloat.float) : PrimFloat.float :=
  match n with
  | O => s
  | S n' => lerp64 (smooth64 alpha target n' s) target alpha
  end.

(** The scale target and the rendered scale are within [0.5, 2.5]. *)
Definition scaleOK (h : Hud) : Prop :=
  0.5 <= earthScale h <= 2.5 /\
  match earthRef h with
  | Some e => 0.5 <= scale_x e <= 2.5 /\ 0.5 <= scale_y e <= 2.5 /\
              0.5 <= scale_z e <= 2.5
  | None => True
  end.

(** A hand of 21 landmarks with the given wrist, thumb tip, index tip and
    middle-finger base; the landmarks the loop does not read are at the
    centre. *)
Definition sampleHand (wrist thumbTip indexTip mid : Vec2) : HandSample :=
  let c := mkVec2 0.5 0.5 in
  [wrist; c; c; c; thumbTip; c; c; c; indexTip; mid; c;
   c; c; c; c; c; c; c; c; c; c].

(** The keywords [part_000] adds to those of [App.tsx]. *)
Definition addedKeywords : list string :=
  ["非洲"; "亚洲"; "中国"; "usa"; "美洲"; "美国"; "欧洲"; "stop"; "重置"]%string.

(** A landmark in the unit square, as the detector delivers them. *)
Definition normalized (p : Vec2) : Prop := 0 <= x p <= 1 /\ 0 <= y p <= 1.

(** The rotation target and the rendered rotation are within the box that
    the gesture gains and the voice table span: [x] in [-2, 2] and [y] in
    [-4, 5.8]. *)
Definition rotationOK (h : Hud) : Prop :=
  (-2 <= x (earthRotation h) <= 2 /\ -4 <= y (earthRotation h) <= 5.8) /\
  match earthRef h with
  | Some e => -2 <= rotation_x e <= 2 /\ -4 <= rotation_y e <= 5.8
  | None => True
  end.

(** The names the sector panel can show: the initial one and those of the
    table. *)
Definition sectorNames : list string :=
  "SCANNING..."%string :: map name CONTINENTS.

(** The three scale components of the globe are one number. *)
Definition uniformScale (h : Hud) : Prop :=
  match earthRef h with
  | Some e => scale_y e = scale_x e /\ scale_z e = scale_x e
  | None => True
  end.

(** A hand on the pointer side that pinches: wrist at [x = 0.3], thumb tip
    and index tip 0.03 apart, index tip at (0.25, 0.5). *)
Definition pointerHand : HandSample :=
  sampleHand (mkVec2 0.3 0.5) (mkVec2 0.25 0.47) (mkVec2 0.25 0.5) (mkVec2 0.3 0.4).

(** A hand on the orientation side: wrist at [x = 0.6], thumb tip and index
    tip 0.5 apart, middle-finger base at (0.75, 0.25). *)
Definition orientationHand : HandSample :=
  sampleHand (mkVec2 0.6 0.5) (mkVec2 0 0) (mkVec2 0.3 0.4) (mkVec2 0.75 0.25).

(** A hand on the orientation side that asks for the rotation (0, 0): the
    middle-finger base at the centre, thumb tip and index tip 0.2 apart. *)
Definition centredHand : HandSample :=
  sampleHand (mkVec2 0.6 0.5) (mkVec2 0.5 0.5) (mkVec2 0.5 0.7) (mkVec2 0.5 0.5).

(** ** Runtime functions on ASCII text

    Executable instances of the runtime parameters, used to run the callbacks
    on concrete inputs: [Math.sqrt] rounded down to a multiple of 2^-52 (the
    runtime rounds to the nearest binary64 number; the inputs used here are
    away from the threshold 0.05), and [trim], [toLowerCase] and
    [toUpperCase] on the ASCII range (other bytes are left as they are, so
    spaces outside ASCII are not trimmed). *)

Definition sqrt_floor (q : Q) : Q :=
  Z.sqrt (Qnum q * 2 ^ 104 / Zpos (Qden q)) # (2 ^ 52).

Definition is_space (c : ascii) : bool :=
  let n := nat_of_ascii c in
  (n =? 32)%nat || ((9 <=? n)%nat && (n <=? 13)%nat).

Fixpoint trimStart (s : string) : string :=
  match s with
  | String c rest => if is_space c then trimStart rest else s
  | EmptyString => EmptyString
  end.

Fixpoint trimEnd (s : string) : string :=
  match s with
  | String c rest =>
    match trimEnd rest with
    | EmptyString => if is_space c then EmptyString else String c EmptyString
    | rest' => String c rest'
    end
  | EmptyString => EmptyString
  end.

Definition ascii_trim (s : string) : string := trimEnd (trimStart s).

Definition lower_char (c : ascii) : ascii :=
  let n := nat_of_ascii c in
  if (65 <=? n)%nat && (n <=? 90)%nat then ascii_of_nat (n + 32) else c.

Definition upper_char (c : ascii) : ascii :=
  let n := nat_of_ascii c in
  if (97 <=? n)%nat && (n <=? 122)%nat then ascii_of_nat (n - 32) else c.

Fixpoint map_string (f : ascii -> ascii) (s : string) : string :=
  match s with
  | String c rest => String (f c) (map_string f rest)
  | EmptyString => EmptyString
  end.

Definition ascii_toLowerCase : string -> string := map_string lower_char.
Definition ascii_toUpperCase : string -> string := map_string upper_char.

Section Runtime.

(** The functions of the JavaScript runtime that the source calls. *)
Variable Math_sqrt : Q -> Q.
Variable trim : string -> string.
Variable toLowerCase : string -> string.
Variable toUpperCase : string -> string.

Definition getDistance (p1 p2 : Vec2) : Q :=
  Math_sqrt (Math_pow (x p1 - x p2) 2 + Math_pow (y p1 - y p2) 2).

(** ** [part_000]: the voice hook *)

(** [recognition.onresult] for an event whose last result has the given
    transcript, with [now] the value of [Date.now()]. *)
Definition onresult (now : Z) (transcript : string) (j : Jarvis) : Jarvis :=
  let text := toLowerCase (trim transcript) in
  let j := with_hud (setHandStatus ("CMD: " ++ dquote ++ text ++ dquote)) j in
  let '(j, matched) :=
    if includes text "africa" || includes text "非洲" then
      (with_hud (set_earthRotation (mkVec2 0 0.5)) j, true)
    else if includes text "asia" || includes text "china"
            || includes text "亚洲" || includes text "中国" then
      (with_hud (set_earthRotation (mkVec2 0.2 2.0)) j, true)
    else if includes text "america" || includes text "usa"
            || includes text "美洲" || includes text "美国" then
      (with_hud (set_earthRotation (mkVec2 0 4.8)) j, true)
    else if includes text "europe" || includes text "欧洲" then
      (with_hud (set_earthRotation (mkVec2 0.3 5.8)) j, true)
    else if includes text "reset" || includes text "stop"
            || includes text "重置" then
      (with_hud (set_earthRotation (mkVec2 0 0)) j, true)
    else (j, false) in
  if matched then mkJarvis (hud j) now else j.

(** ** [part_000]: the render callback *)

(** The body of [useFrame] in [HolographicEarth]. *)
Definition useFrame (h : Hud) : Hud :=
  match earthRef h with
  | None => h
  | Some e =>
    let rot_y := lerp (rotation_y e) (y (earthRotation h)) 0.05 in
    let rot_x := lerp (rotation_x e) (x (earthRotation h)) 0.05 in
    let newScale := lerp (scale_x e) (earthScale h) 0.1 in
    let h := set_earthRef (Some (mkEarth rot_x rot_y newScale newScale newScale)) h in
    match find (in_rad (adjustedRot rot_y)) CONTINENTS with
    | Some active => setContinent (name active) h
    | None => h
    end
  end.

(** ** [part_000]: the detect loop *)

(** The callback of [results.landmarks.forEach] for one hand, with [now] the
    value of [Date.now()] and the size of the window.  Reading [.x] of a
    missing landmark raises, hence the [option]. *)
Definition processHand (now : Z) (innerWidth innerHeight : Q)
    (landmarks : HandSample) (j : Jarvis) : option Jarvis :=
  match nth_error landmarks 0, nth_error landmarks 4,
        nth_error landmarks 8, nth_error landmarks 9 with
  | Some wrist, Some thumbTip, Some indexTip, Some mid =>
    let midX := x mid in
    let midY := y mid in
    let isVoiceControlling := (now - lastCmdTimeRef j <? 3000)%Z in
    if Qgtb (x wrist) 0.5 then
      if negb isVoiceControlling then
        let r := mkVec2 (x (earthRotation (hud j))) ((midX - 0.5) * 8) in
        let r := mkVec2 ((midY - 0.5) * 4) (y r) in
        let pinch := getDistance thumbTip indexTip in
        Some (with_hud (fun h => set_earthScale (rawScale pinch)
                                   (set_earthRotation r h)) j)
      else Some j
    else
      if Qltb (getDistance thumbTip indexTip) 0.05 then
        Some (with_hud (setPanelUI (mkVec2 ((1 - x indexTip) * innerWidth)
                                           (y indexTip * innerHeight))) j)
      else Some j
  | _, _, _, _ => None
  end.

(** One iteration of [detectLoop] whose guards hold: the hands of
    [results.landmarks] in order, each with the clock value read while it is
    processed. *)
Fixpoint detectLoop (innerWidth innerHeight : Q)
    (hands : list (Z * HandSample)) (j : Jarvis) : option Jarvis :=
  match hands with
  | [] => Some j
  | (now, landmarks) :: rest =>
    match processHand now innerWidth innerHeight landmarks j with
    | Some j' => detectLoop innerWidth innerHeight rest j'
    | None => None
    end
  end.

(** ** [App.tsx]: the same three callbacks *)

Definition App_onresult (transcript : string) (h : Hud) : Hud :=
  let command := toLowerCase (trim transcript) in
  let h := setHandStatus ("VOICE: " ++ dquote ++ toUpperCase command ++ dquote) h in
  if includes command "africa" then set_earthRotation (mkVec2 0 0.5) h
  else if includes command "asia" || includes command "china" then
    set_earthRotation (mkVec2 0.2 2.0) h
  else if includes command "america" then set_earthRotation (mkVec2 0 4.8) h
  else if includes command "europe" then set_earthRotation (mkVec2 0.3 5.8) h
  else if includes command "reset" then set_earthRotation (mkVec2 0 0) h
  else h.

Definition App_useFrame (h : Hud) : Hud :=
  match earthRef h with
  | None => h
  | Some e =>
    let rot_y := lerp (rotation_y e) (y (earthRotation h)) 0.1 in
    let rot_x := lerp (rotation_x e) (x (earthRotation h)) 0.1 in
    let newScale := lerp (scale_x e) (earthScale h) 0.1 in
    let h := set_earthRef (Some (mkEarth rot_x rot_y newScale newScale newScale)) h in
    match find (in_rad (adjustedRot rot_y)) CONTINENTS with
    | Some active => setContinent (name active) h
    | None => h
    end
  end.

Definition App_processHand (innerWidth innerHeight : Q)
    (landmarks : HandSample) (h : Hud) : option Hud :=
  match nth_error landmarks 0, nth_error landmarks 4,
        nth_error landmarks 8, nth_error landmarks 9 with
  | Some wrist, Some thumbTip, Some indexTip, Some mid =>
    let midX := x mid in
    let midY := y mid in
    if Qgtb (x wrist) 0.5 then
      let r := mkVec2 (x (earthRotation h)) ((midX - 0.5) * 8) in
      let r := mkVec2 ((midY - 0.5) * 4) (y r) in
      let pinch := getDistance thumbTip indexTip in
      Some (set_earthScale (rawScale pinch) (set_earthRotation r h))
    else
      if Qltb (getDistance thumbTip indexTip) 0.05 then
        Some (setPanelUI (mkVec2 ((1 - x indexTip) * innerWidth)
                                 (y indexTip * innerHeight)) h)
      else Some h
  | _, _, _, _ => None
  end.

Fixpoint App_forEach (innerWidth innerHeight : Q)
    (hands : list HandSample) (h : Hud) : option Hud :=
  match hands with
  | [] => Some h
  | landmarks :: rest =>
    match App_processHand innerWidth innerHeight landmarks h with
    | Some h' => App_forEach innerWidth innerHeight rest h'
    | None => None
    end
  end.

(** One iteration of the detect loop of [App.tsx] whose guards hold: the
    number of hands goes to the status line, then the hands are processed. *)
Definition App_detectLoop (innerWidth innerHeight : Q)
    (hands : list HandSample) (h : Hud) : option Hud :=
  match hands with
  | [] => Some h
  | _ :: _ =>
    App_forEach innerWidth innerHeight hands
      (setHandStatus ("TARGETS: " ++ NilEmpty.string_of_uint
                                       (Nat.to_uint (List.length hands))) h)
  end.

(** What the branch of a hand with [wrist.x > 0.5] does (lines 177-182) and
    what the branch of the other hands does (lines 186-189). *)
Definition orientationEffect (now : Z) (thumbTip indexTip mid : Vec2)
    (j : Jarvis) : Jarvis :=
  if (now - lastCmdTimeRef j <? 3000)%Z then j
  else with_hud (fun h => set_earthScale (rawScale (getDistance thumbTip indexTip))
                            (set_earthRotation
                               (mkVec2 ((y mid - 0.5) * 4) ((x mid - 0.5) * 8)) h)) j.

Definition pointerEffect (innerWidth innerHeight : Q) (thumbTip indexTip : Vec2)
    (j : Jarvis) : Jarvis :=
  if Qltb (getDistance thumbTip indexTip) 0.05 then
    with_hud (setPanelUI (mkVec2 ((1 - x indexTip) * innerWidth)
                                 (y indexTip * innerHeight))) j
  else j.

(** ** Runs of [part_000] *)

(** What happens to the application: a recognition result, one hand of a
    detect-loop iteration, or a rendered frame. *)
Inductive Event : Type :=
  | Voice (now : Z) (transcript : string)
  | Hand (now : Z) (innerWidth innerHeight : Q) (landmarks : HandSample)
  | Render.

Definition step (ev : Event) (j : Jarvis) : option Jarvis :=
  match ev with
  | Voice now transcript => Some (onresult now transcript j)
  | Hand now W H landmarks => processHand now W H landmarks j
  | Render => Some (with_hud useFrame j)
  end.

Fixpoint run (evs : list Event) (j : Jarvis) : option Jarvis :=
  match evs with
  | [] => Some j
  | ev :: rest =>
    match step ev j with
    | Some j' => run rest j'
    | None => None
    end
  end.

(** The status line after a recognition result. *)
Definition cmdStatus (transcript : string) : string :=
  ("CMD: " ++ dquote ++ toLowerCase (trim transcript) ++ dquote)%string.

(** The voice hook run on a sequence of results, each with its clock. *)
Definition onresults (utterances : list (Z * string)) (j : Jarvis) : Jarvis :=
  fold_left (fun j u => onresult (fst u) (snd u) j) utterances j.

(** The landmark 9 of a hand event is in the unit square. *)
Definition mid_normalized (ev : Event) : Prop :=
  match ev with
  | Hand _ _ _ landmarks =>
    forall mid, nth_error landmarks 9 = Some mid -> normalized mid
  | _ => True
  end.

(** ** Runs of [App.tsx] *)

Inductive App_Event : Type :=
  | App_Voice (transcript : string)
  | App_Detect (innerWidth innerHeight : Q) (hands : list HandSample)
  | App_Render.

Definition App_step (ev : App_Event) (h : Hud) : option Hud :=
  match ev with
  | App_Voice transcript => Some (App_onresult transcript h)
  | App_Detect W H hands => App_detectLoop W H hands h
  | App_Render => Some (App_useFrame h)
  end.

Fixpoint App_run (evs : list App_Event) (h : Hud) : option Hud :=
  match evs with
  | [] => Some h
  | ev :: rest =>
    match App_step ev h with
    | Some h' => App_run rest h'
    | None => None
    end
  end.

(** ** Comparisons, maximum and minimum *)

Lemma Qltb_lt (a b : Q) : Qltb a b = true <-> a < b.
Proof.
  unfold Qltb. rewrite negb_true_iff, <- not_true_iff_false, Qle_bool_iff.
  split; [apply Qnot_le_lt | apply Qlt_not_le].
Qed.

Lemma Qltb_ge (a b : Q) : Qltb a b = false <-> b <= a.
Proof. unfold Qltb. rewrite negb_false_iff. apply Qle_bool_iff. Qed.

Lemma Qgtb_gt (a b : Q) : Qgtb a b = true <-> b < a.
Proof. apply Qltb_lt. Qed.

Lemma Qgtb_le (a b : Q) : Qgtb a b = false <-> a <= b.
Proof. apply Qltb_ge. Qed.

Lemma Qgeb_ge (a b : Q) : Qgeb a b = true <-> b <= a.
Proof. apply Qle_bool_iff. Qed.

Lemma Qle_bool_gt (a b : Q) : Qle_bool a b = false <-> b < a.
Proof.
  rewrite <- not_true_iff_false, Qle_bool_iff.
  split; [apply Qnot_le_lt | apply Qlt_not_le].
Qed.

Lemma Math_max_Qmax (a b : Q) : Math_max a b == Qmax a b.
Proof.
  unfold Math_max. destruct (Qle_bool a b) eqn:E.
  - apply Qle_bool_iff in E. symmetry. now apply Q.max_r.
  - apply Qle_bool_gt in E. symmetry. apply Q.max_l. lra.
Qed.

Lemma Math_min_Qmin (a b : Q) : Math_min a b == Qmin a b.
Proof.
  unfold Math_min. destruct (Qle_bool a b) eqn:E.
  - apply Qle_bool_iff in E. symmetry. now apply Q.min_l.
  - apply Qle_bool_gt in E. symmetry. apply Q.min_r. lra.
Qed.

Lemma rawScale_range (pinch : Q) : 0.5 <= rawScale pinch <= 2.5.
Proof.
  unfold rawScale, Math_max, Math_min.
  destruct (Qle_bool 2.5 (pinch * 8)) eqn:E1.
  - now vm_compute.
  - apply Qle_bool_gt in E1.
    destruct (Qle_bool 0.5 (pinch * 8)) eqn:E2.
    + apply Qle_bool_iff in E2. lra.
    + lra.
Qed.

(** ** The callback of one hand *)

Lemma hand_at_exists (landmarks : HandSample) :
  (10 <= List.length landmarks)%nat ->
  exists wrist thumbTip indexTip mid, hand_at landmarks wrist thumbTip indexTip mid.
Proof.
  intros Hlen. unfold hand_at.
  destruct (nth_error landmarks 0) as [w|] eqn:E0;
    [|apply nth_error_None in E0; lia].
  destruct (nth_error landmarks 4) as [t|] eqn:E4;
    [|apply nth_error_None in E4; lia].
  destruct (nth_error landmarks 8) as [i|] eqn:E8;
    [|apply nth_error_None in E8; lia].
  destruct (nth_error landmarks 9) as [m|] eqn:E9;
    [|apply nth_error_None in E9; lia].
  now exists w, t, i, m.
Qed.

Ltac hand_simpl H :=
  let H0 := fresh in let H4 := fresh in let H8 := fresh in let H9 := fresh in
  destruct H as (H0 & H4 & H8 & H9);
  unfold processHand, App_processHand; rewrite H0, H4, H8, H9; cbv zeta.

(** What [processHand] does with a hand whose four landmarks are there. *)
Lemma processHand_eq now W H landmarks wrist thumbTip indexTip mid j :
  hand_at landmarks wrist thumbTip indexTip mid ->
  processHand now W H landmarks j =
  Some (match role_of wrist with
        | Orientation =>
          if (now - lastCmdTimeRef j <? 3000)%Z then j
          else with_hud (fun h => set_earthScale
                                    (rawScale (getDistance thumbTip indexTip))
                                    (set_earthRotation (gestureRotation mid) h)) j
        | Pointer =>
          if Qltb (getDistance thumbTip indexTip) 0.05 then
            with_hud (setPanelUI (mkVec2 ((1 - x indexTip) * W) (y indexTip * H))) j
          else j
        end).
Proof.
  intros Hh. hand_simpl Hh. unfold role_of.
  destruct (Qgtb (x wrist) 0.5).
  - now destruct (now - lastCmdTimeRef j <? 3000)%Z.
  - now destruct (Qltb (getDistance thumbTip indexTip) 0.05).
Qed.

Lemma App_processHand_eq W H landmarks wrist thumbTip indexTip mid h :
  hand_at landmarks wrist thumbTip indexTip mid ->
  App_processHand W H landmarks h =
  Some (match role_of wrist with
        | Orientation =>
          set_earthScale (rawScale (getDistance thumbTip indexTip))
                         (set_earthRotation (gestureRotation mid) h)
        | Pointer =>
          if Qltb (getDistance thumbTip indexTip) 0.05 then
            setPanelUI (mkVec2 ((1 - x indexTip) * W) (y indexTip * H)) h
          else h
        end).
Proof.
  intros Hh. hand_simpl Hh. unfold role_of.
  destruct (Qgtb (x wrist) 0.5).
  - reflexivity.
  - now destruct (Qltb (getDistance thumbTip indexTip) 0.05).
Qed.

(** A hand of at least ten landmarks never raises; a shorter one does. *)
Lemma processHand_total now W H landmarks j :
  (10 <= List.length landmarks)%nat ->
  exists j', processHand now W H landmarks j = Some j'.
Proof.
  intros Hlen. destruct (hand_at_exists landmarks Hlen) as (w & t & i & m & Hh).
  eexists. now apply processHand_eq with (1 := Hh).
Qed.

Lemma processHand_lastCmdTimeRef now W H landmarks j j' :
  processHand now W H landmarks j = Some j' ->
  lastCmdTimeRef j' = lastCmdTimeRef j.
Proof.
  unfold processHand.
  destruct (nth_error landmarks 0), (nth_error landmarks 4),
    (nth_error landmarks 8), (nth_error landmarks 9); try discriminate.
  cbv zeta.
  destruct (Qgtb (x v) 0.5).
  - destruct (negb (now - lastCmdTimeRef j <? 3000)%Z); now intros [= <-].
  - destruct (Qltb (getDistance v0 v1) 0.05); now intros [= <-].
Qed.

Lemma role_of_Orientation (wrist : Vec2) :
  role_of wrist = Orientation <-> 0.5 < x wrist.
Proof.
  unfold role_of. destruct (Qgtb (x wrist) 0.5) eqn:E.
  - apply Qgtb_gt in E. tauto.
  - apply Qgtb_le in E. split; [discriminate | lra].
Qed.

Lemma role_of_Pointer (wrist : Vec2) :
  role_of wrist = Pointer <-> x wrist <= 0.5.
Proof.
  unfold role_of. destruct (Qgtb (x wrist) 0.5) eqn:E.
  - apply Qgtb_gt in E. split; [discriminate | lra].
  - apply Qgtb_le in E. tauto.
Qed.

(** ** The voice window in the detect loop *)

(** C1. A hand with [wrist.x > 0.5] is processed without raising, and the
    rotation target after it is the one before it when
    [now - lastCmdTime < 3000], and the gesture rotation
    [((landmark9.y - 0.5) * 4, (landmark9.x - 0.5) * 8)] when
    [now - lastCmdTime >= 3000], the bound 3000 included. *)
Theorem C1_voice_window_rotation
    now W H landmarks wrist thumbTip indexTip mid j :
  hand_at landmarks wrist thumbTip indexTip mid ->
  0.5 < x wrist ->
  exists j', processHand now W H landmarks j = Some j' /\
    ((now - lastCmdTimeRef j < 3000)%Z ->
       earthRotation (hud j') = earthRotation (hud j)) /\
    ((3000 <= now - lastCmdTimeRef j)%Z ->
       earthRotation (hud j') =
       mkVec2 ((y mid - 0.5) * 4) ((x mid - 0.5) * 8)) /\
    (now = (lastCmdTimeRef j + 3000)%Z ->
       earthRotation (hud j') = gestureRotation mid).
Proof.
  intros Hh Hw. eexists. split; [apply processHand_eq with (1 := Hh)|].
  apply role_of_Orientation in Hw. rewrite Hw.
  destruct (now - lastCmdTimeRef j <? 3000)%Z eqn:E.
  - apply Z.ltb_lt in E. repeat split; intros; try reflexivity; lia.
  - apply Z.ltb_ge in E. repeat split; intros; try reflexivity; lia.
Qed.

(** While every hand of an iteration is processed inside the window, the
    iteration leaves the rotation target as it was. *)
Lemma detectLoop_suppressed W H hands : forall j j',
  detectLoop W H hands j = Some j' ->
  Forall (fun nl => (fst nl - lastCmdTimeRef j < 3000)%Z) hands ->
  earthRotation (hud j') = earthRotation (hud j) /\
  earthScale (hud j') = earthScale (hud j).
Proof.
  induction hands as [|[now l] rest IH]; intros j j' Hrun Hall.
  - now injection Hrun as <-.
  - cbn [detectLoop] in Hrun.
    destruct (processHand now W H l j) as [j1|] eqn:E1; [|discriminate].
    inversion Hall as [|? ? Hnow Hrest]; subst. cbn [fst] in Hnow.
    pose proof (processHand_lastCmdTimeRef _ _ _ _ _ _ E1) as Ht.
    rewrite <- Ht in Hrest.
    destruct (IH _ _ Hrun Hrest) as [IHr IHs]. rewrite IHr, IHs.
    revert E1. unfold processHand.
    destruct (nth_error l 0) as [w|], (nth_error l 4) as [t|],
      (nth_error l 8) as [i|], (nth_error l 9) as [m|]; try discriminate.
    cbv zeta. apply Z.ltb_lt in Hnow. rewrite Hnow. cbn [negb].
    destruct (Qgtb (x w) 0.5).
    + now intros [= <-].
    + destruct (Qltb (getDistance t i) 0.05); now intros [= <-].
Qed.

(** The hand that is processed last, outside the window and with
    [wrist.x > 0.5], decides the rotation target of the iteration. *)
Lemma detectLoop_last_orientation W H hands now landmarks
    wrist thumbTip indexTip mid j j1 :
  detectLoop W H hands j = Some j1 ->
  hand_at landmarks wrist thumbTip indexTip mid ->
  0.5 < x wrist ->
  (3000 <= now - lastCmdTimeRef j)%Z ->
  exists j', detectLoop W H (hands ++ [(now, landmarks)]) j = Some j' /\
             earthRotation (hud j') = gestureRotation mid.
Proof.
  revert j. induction hands as [|[n l] rest IH]; intros j Hrun Hh Hw Hnow.
  - injection Hrun as <-. cbn [app detectLoop].
    rewrite (processHand_eq now W H _ _ _ _ _ j Hh).
    apply role_of_Orientation in Hw. rewrite Hw.
    apply Z.ltb_ge in Hnow. rewrite Hnow.
    eexists. split; reflexivity.
  - cbn [app detectLoop] in *.
    destruct (processHand n W H l j) as [j2|] eqn:E; [|discriminate].
    apply IH; auto.
    now rewrite (processHand_lastCmdTimeRef _ _ _ _ _ _ E).
Qed.

(** C2, as the code has it. A hand with [wrist.x > 0.5] leaves the scale
    target as it was when [now - lastCmdTime < 3000] and sets it to
    [clamp(pinch * 8, 0.5, 2.5)] when [now - lastCmdTime >= 3000]; a
    recognition result never changes the scale target. *)
Theorem C2_scale_follows_window
    now W H landmarks wrist thumbTip indexTip mid j :
  hand_at landmarks wrist thumbTip indexTip mid ->
  0.5 < x wrist ->
  exists j', processHand now W H landmarks j = Some j' /\
    ((now - lastCmdTimeRef j < 3000)%Z ->
       earthScale (hud j') = earthScale (hud j)) /\
    ((3000 <= now - lastCmdTimeRef j)%Z ->
       earthScale (hud j') =
       Math_max 0.5 (Math_min 2.5 (getDistance thumbTip indexTip * 8))) /\
    (forall t transcript,
       earthScale (hud (onresult t transcript j)) = earthScale (hud j)).
Proof.
  intros Hh Hw. eexists. split; [apply processHand_eq with (1 := Hh)|].
  apply role_of_Orientation in Hw. rewrite Hw.
  assert (Hvoice : forall t transcript,
             earthScale (hud (onresult t transcript j)) = earthScale (hud j)).
  { intros t transcript. unfold onresult.
    repeat match goal with
           | |- context [if ?b then _ else _] => destruct b
           end; reflexivity. }
  destruct (now - lastCmdTimeRef j <? 3000)%Z eqn:E.
  - apply Z.ltb_lt in E. repeat split; intros; auto; lia.
  - apply Z.ltb_ge in E. repeat split; intros; auto; lia.
Qed.

(** ** The raw scale *)

(** C6. For every pinch distance the raw scale is
    [max(0.5, min(2.5, pinch * 8))] and lies in [0.5, 2.5]. *)
Theorem C6_raw_scale_clamped (pinch : Q) :
  rawScale pinch == Qmax 0.5 (Qmin 2.5 (pinch * 8)) /\
  0.5 <= rawScale pinch <= 2.5.
Proof.
  split; [|apply rawScale_range].
  unfold rawScale. rewrite Math_max_Qmax.
  apply Q.max_compat; [reflexivity | apply Math_min_Qmin].
Qed.

(** Both detect loops write the raw scale of the pinch distance. *)
Lemma App_processHand_scale W H landmarks wrist thumbTip indexTip mid h :
  hand_at landmarks wrist thumbTip indexTip mid ->
  0.5 < x wrist ->
  exists h', App_processHand W H landmarks h = Some h' /\
             earthScale h' = rawScale (getDistance thumbTip indexTip) /\
             earthRotation h' = gestureRotation mid.
Proof.
  intros Hh Hw. eexists. split; [apply App_processHand_eq with (1 := Hh)|].
  apply role_of_Orientation in Hw. rewrite Hw. split; reflexivity.
Qed.

(** ** Roles *)

(** C7. Which branch of the callback a hand takes is decided by [wrist.x]
    alone: of two hands whose wrists have the same [x], whatever their other
    landmarks, both are processed by the branch that steers the globe (when
    [wrist.x > 0.5]) or both by the branch that drags the panel (otherwise),
    each with its own landmarks; a hand with [wrist.x = 0.51] steers the
    globe and a hand with [wrist.x = 0.49] drags the panel. *)
Theorem C7_branch_from_wrist_x now W H j
    landmarks wrist thumbTip indexTip mid
    landmarks' wrist' thumbTip' indexTip' mid' :
  hand_at landmarks wrist thumbTip indexTip mid ->
  hand_at landmarks' wrist' thumbTip' indexTip' mid' ->
  x wrist == x wrist' ->
  ((0.5 < x wrist /\
    processHand now W H landmarks j
      = Some (orientationEffect now thumbTip indexTip mid j) /\
    processHand now W H landmarks' j
      = Some (orientationEffect now thumbTip' indexTip' mid' j)) \/
   (x wrist <= 0.5 /\
    processHand now W H landmarks j
      = Some (pointerEffect W H thumbTip indexTip j) /\
    processHand now W H landmarks' j
      = Some (pointerEffect W H thumbTip' indexTip' j))) /\
  (x wrist == 0.51 ->
   processHand now W H landmarks j
     = Some (orientationEffect now thumbTip indexTip mid j)) /\
  (x wrist == 0.49 ->
   processHand now W H landmarks j
     = Some (pointerEffect W H thumbTip indexTip j)).
Proof.
  intros Hh Hh' Ex.
  assert (Ho : forall l w t i m, hand_at l w t i m -> 0.5 < x w ->
            processHand now W H l j = Some (orientationEffect now t i m j)).
  { intros l w t i m Hl Hw. rewrite (processHand_eq now W H _ _ _ _ _ j Hl).
    apply role_of_Orientation in Hw. now rewrite Hw. }
  assert (Hp : forall l w t i m, hand_at l w t i m -> x w <= 0.5 ->
            processHand now W H l j = Some (pointerEffect W H t i j)).
  { intros l w t i m Hl Hw. rewrite (processHand_eq now W H _ _ _ _ _ j Hl).
    apply role_of_Pointer in Hw. now rewrite Hw. }
  split; [|split].
  - destruct (Qlt_le_dec 0.5 (x wrist)) as [Hw|Hw].
    + left. split; [exact Hw|]. split.
      * exact (Ho _ _ _ _ _ Hh Hw).
      * apply (Ho _ _ _ _ _ Hh'). lra.
    + right. split; [exact Hw|]. split.
      * exact (Hp _ _ _ _ _ Hh Hw).
      * apply (Hp _ _ _ _ _ Hh'). lra.
  - intros E. apply (Ho _ _ _ _ _ Hh). lra.
  - intros E. apply (Hp _ _ _ _ _ Hh). lra.
Qed.

(** ** Sectors *)

Lemma in_rad_iff (a : Q) (c : Continent) :
  in_rad a c = true <-> fst (rad c) <= a < snd (rad c).
Proof.
  unfold in_rad. now rewrite andb_true_iff, Qgeb_ge, Qltb_lt.
Qed.

Lemma find_none_iff {A : Type} (f : A -> bool) (l : list A) :
  find f l = None <-> (forall a, In a l -> f a = false).
Proof.
  split; [apply find_none|].
  induction l as [|a l IH]; intros Hall; [reflexivity|].
  cbn [find]. rewrite (Hall a (or_introl eq_refl)).
  apply IH. intros b Hb. apply Hall. now right.
Qed.

Ltac pick :=
  first [ solve [repeat split; first [assumption | reflexivity]]
        | left; pick
        | right; pick ].

(** The sector found, range by range. *)
Lemma sector_of_cases (a : Q) :
  (a < 0 /\ sector_of a = None) \/
  (0 <= a < 1.2 /\ sector_of a = nth_error CONTINENTS 0) \/
  (1.2 <= a < 2.5 /\ sector_of a = nth_error CONTINENTS 1) \/
  (2.5 <= a < 4.0 /\ sector_of a = nth_error CONTINENTS 2) \/
  (4.0 <= a < 5.5 /\ sector_of a = nth_error CONTINENTS 3) \/
  (5.5 <= a < 6.28 /\ sector_of a = nth_error CONTINENTS 4) \/
  (6.28 <= a /\ sector_of a = None).
Proof.
  unfold sector_of, CONTINENTS, in_rad, Qgeb, Qltb.
  cbn [find rad fst snd nth_error].
  destruct (Qle_bool 0 a) eqn:E0, (Qle_bool 1.2 a) eqn:E1,
    (Qle_bool 2.5 a) eqn:E2, (Qle_bool 4.0 a) eqn:E3,
    (Qle_bool 5.5 a) eqn:E4, (Qle_bool 6.28 a) eqn:E5;
    cbn [andb negb];
    repeat match goal with
           | E : Qle_bool _ _ = true |- _ => apply Qle_bool_iff in E
           | E : Qle_bool _ _ = false |- _ => apply Qle_bool_gt in E
           end;
    first [exfalso; lra | pick].
Qed.

(** ** The remainder operator and the reflected angle *)

Lemma Qtrunc_nonneg (q : Q) : 0 <= q -> Qtrunc q = Qfloor q.
Proof.
  destruct q as [n d]. unfold Qle, Qtrunc, Qfloor. cbn. intros H.
  apply Z.quot_div_nonneg; lia.
Qed.

Lemma Qtrunc_nonpos (q : Q) : q <= 0 -> Qtrunc q = Qceiling q.
Proof.
  destruct q as [n d]. unfold Qle, Qtrunc, Qceiling, Qfloor. cbn. intros H.
  rewrite <- (Z.opp_involutive n) at 1. rewrite Z.quot_opp_l by lia.
  f_equal. apply Z.quot_div_nonneg; lia.
Qed.

Lemma Qtrunc_low (q : Q) : 0 <= q -> inject_Z (Qtrunc q) <= q < inject_Z (Qtrunc q) + 1.
Proof.
  intros H. rewrite (Qtrunc_nonneg q H). split; [apply Qfloor_le|].
  pose proof (Qlt_floor q) as L. rewrite inject_Z_plus in L. exact L.
Qed.

Lemma Qtrunc_high (q : Q) : q <= 0 -> inject_Z (Qtrunc q) - 1 < q <= inject_Z (Qtrunc q).
Proof.
  intros H. rewrite (Qtrunc_nonpos q H). split; [|apply Qle_ceiling].
  pose proof (Qceiling_lt q) as L. unfold Z.sub in L. rewrite inject_Z_plus in L. exact L.
Qed.

Lemma js_rem_nonneg (a b : Q) : 0 < b -> 0 <= a -> 0 <= js_rem a b < b.
Proof.
  intros Hb Ha. unfold js_rem.
  assert (Hq : 0 <= a / b) by (apply Qle_shift_div_l; lra).
  destruct (Qtrunc_low _ Hq) as [L U].
  set (T := inject_Z (Qtrunc (a / b))) in *.
  assert (E : a == (a / b) * b) by (field; lra).
  assert (T * b <= a / b * b) by (apply Qmult_le_compat_r; lra).
  assert (a / b * b < (T + 1) * b) by (apply Qmult_lt_compat_r; lra).
  lra.
Qed.

Lemma js_rem_nonpos (a b : Q) : 0 < b -> a <= 0 -> - b < js_rem a b <= 0.
Proof.
  intros Hb Ha. unfold js_rem.
  assert (Hq : a / b <= 0) by (apply Qle_shift_div_r; lra).
  destruct (Qtrunc_high _ Hq) as [L U].
  set (T := inject_Z (Qtrunc (a / b))) in *.
  assert (E : a == (a / b) * b) by (field; lra).
  assert (a / b * b <= T * b) by (apply Qmult_le_compat_r; lra).
  assert ((T - 1) * b < a / b * b) by (apply Qmult_lt_compat_r; lra).
  lra.
Qed.

Lemma two_pi_pos : 0 < Math_PI * 2.
Proof. reflexivity. Qed.

(** The normalized angle is in [0, 2 * Math.PI) and the reflected angle in
    (0, 2 * Math.PI]. *)
Lemma normalizedRot_range (rot_y : Q) :
  0 <= normalizedRot rot_y < Math_PI * 2.
Proof.
  unfold normalizedRot. pose proof two_pi_pos as Hb.
  apply js_rem_nonneg; [exact Hb|].
  destruct (Qlt_le_dec rot_y 0) as [Hneg|Hpos].
  - pose proof (js_rem_nonpos rot_y _ Hb (Qlt_le_weak _ _ Hneg)). lra.
  - pose proof (js_rem_nonneg rot_y _ Hb Hpos). lra.
Qed.

Lemma adjustedRot_range (rot_y : Q) :
  0 < adjustedRot rot_y <= Math_PI * 2.
Proof.
  unfold adjustedRot. pose proof (normalizedRot_range rot_y). lra.
Qed.

Lemma two_pi_above_table : 6.28 < Math_PI * 2.
Proof. reflexivity. Qed.

Lemma sector_of_high (a : Q) : 6.28 <= a -> sector_of a = None.
Proof.
  intros Ha.
  destruct (sector_of_cases a) as [[H ?]|[[H ?]|[[H ?]|[[H ?]|[[H ?]|[[H ?]|[H ?]]]]]]];
    try assumption; exfalso; lra.
Qed.

(** C3, as the table has it. A reflected angle is in a sector exactly when it
    is in [0, 6.28); no angle is in two ranges; the sector found is an entry
    whose range holds the angle, closed below and open above; the angle 1.2
    is in Asia; and the angles from 6.28 on are in no sector, [2 * Math.PI]
    being larger than 6.28 and the reflected angle of the render callback
    ranging over (0, 2 * Math.PI]. *)
Theorem C3_sectors_partition_table_span (a : Q) :
  ((exists c, sector_of a = Some c) <-> 0 <= a < 6.28) /\
  (forall c c', In c CONTINENTS -> In c' CONTINENTS ->
     fst (rad c) <= a < snd (rad c) -> fst (rad c') <= a < snd (rad c') ->
     c = c') /\
  (forall c, sector_of a = Some c ->
     In c CONTINENTS /\ fst (rad c) <= a < snd (rad c)) /\
  (a == 1.2 -> option_map name (sector_of a) = Some "ASIA (亚洲)"%string) /\
  (6.28 <= a -> sector_of a = None) /\
  6.28 < Math_PI * 2 /\
  (forall rot_y, 0 < adjustedRot rot_y <= Math_PI * 2).
Proof.
  split; [|split; [|split; [|split; [|split; [|split]]]]].
  - destruct (sector_of_cases a)
      as [[H E]|[[H E]|[[H E]|[[H E]|[[H E]|[[H E]|[H E]]]]]]];
      rewrite E; cbn [nth_error CONTINENTS]; split;
      try (intros [c Hc]; discriminate Hc);
      try (intros _; eexists; reflexivity);
      intros; lra.
  - intros c c' Hc Hc' Hr Hr'.
    destruct Hc as [<-|[<-|[<-|[<-|[<-|[]]]]]];
      destruct Hc' as [<-|[<-|[<-|[<-|[<-|[]]]]]];
      cbn [rad fst snd] in Hr, Hr'; try reflexivity; exfalso; lra.
  - intros c Hc. apply find_some in Hc. now rewrite <- in_rad_iff.
  - intros E.
    destruct (sector_of_cases a)
      as [[H E']|[[H E']|[[H E']|[[H E']|[[H E']|[[H E']|[H E']]]]]]];
      try (exfalso; lra).
    now rewrite E'.
  - apply sector_of_high.
  - apply two_pi_above_table.
  - apply adjustedRot_range.
Qed.

(** ** The sector name in a rendered frame *)

(** C8. In a frame whose reflected angle is in none of the five ranges, the
    callback leaves the sector name as it was. *)
Theorem C8_no_sector_keeps_name (h : Hud) :
  (forall a c, frameAngle h = Some a -> In c CONTINENTS ->
     ~ (fst (rad c) <= a < snd (rad c))) ->
  activeContinent (useFrame h) = activeContinent h.
Proof.
  intros Hnone. unfold useFrame. unfold frameAngle in Hnone.
  destruct (earthRef h) as [e|]; [|reflexivity]. cbv zeta.
  cbn [option_map] in Hnone.
  assert (E : find (in_rad (adjustedRot
                      (lerp (rotation_y e) (y (earthRotation h)) 0.05)))
                CONTINENTS = None).
  { apply find_none_iff. intros c Hc.
    apply not_true_iff_false. rewrite in_rad_iff.
    now apply Hnone. }
  now rewrite E.
Qed.

(** The angle [2 * Math.PI], which the callback computes for a globe at
    rotation 0, is in no range. *)
Lemma two_pi_in_no_sector :
  adjustedRot 0 == Math_PI * 2 /\ sector_of (adjustedRot 0) = None.
Proof. split; reflexivity. Qed.

(** ** The keyword table *)

Lemma prefix_iff (sub text : string) :
  String.prefix sub text = true <-> exists post, text = (sub ++ post)%string.
Proof.
  revert text. induction sub as [|c sub IH]; intros text.
  - split; [intros _; now exists text | now destruct text].
  - destruct text as [|d text]; cbn [String.prefix String.append].
    + split; [discriminate | intros [post E]; discriminate E].
    + destruct (ascii_dec c d) as [->|Hne].
      * rewrite IH. split; intros [post E]; exists post.
        -- now rewrite E.
        -- now injection E.
      * split; [discriminate|]. intros [post E]. injection E as E1 E2.
        now elim Hne.
Qed.

(** [includes] is substring containment. *)
Lemma includes_iff (text sub : string) :
  includes text sub = true <->
  exists pre post, text = (pre ++ sub ++ post)%string.
Proof.
  induction text as [|c text IH]; cbn [includes]; rewrite orb_true_iff.
  - rewrite prefix_iff. split.
    + intros [[post E]|H]; [|discriminate]. now exists EmptyString, post.
    + intros (pre & post & E). left.
      destruct pre; [now exists post|discriminate E].
  - rewrite prefix_iff, IH. split.
    + intros [[post E]|(pre & post & E)].
      * now exists EmptyString, post.
      * exists (String c pre), post. cbn [String.append]. now rewrite E.
    + intros (pre & post & E). destruct pre as [|d pre].
      * left. now exists post.
      * right. cbn [String.append] in E. injection E as _ E.
        now exists pre, post.
Qed.

Ltac keyword text k :=
  destruct (includes text k);
  cbn [orb find existsb fst snd option_map hud lastCmdTimeRef with_hud
       set_earthRotation earthRotation];
  [split; reflexivity|].

(** C4. With [text] the trimmed, lower-cased transcript: when an entry of the
    keyword table has a keyword that [text] contains, the first such entry
    gives the rotation target and the command time becomes [now]; when there
    is none, the rotation target and the command time stay as they were. *)
Theorem C4_first_keyword_entry_wins now transcript j :
  let text := toLowerCase (trim transcript) in
  let j' := onresult now transcript j in
  match voiceTarget text with
  | Some r => earthRotation (hud j') = r /\ lastCmdTimeRef j' = now
  | None => earthRotation (hud j') = earthRotation (hud j) /\
            lastCmdTimeRef j' = lastCmdTimeRef j
  end.
Proof.
  cbv zeta. unfold onresult, voiceTarget, VOICE_TABLE.
  set (text := toLowerCase (trim transcript)).
  cbn [find existsb fst snd].
  keyword text "africa"%string. keyword text "非洲"%string.
  keyword text "asia"%string. keyword text "china"%string.
  keyword text "亚洲"%string. keyword text "中国"%string.
  keyword text "america"%string. keyword text "usa"%string.
  keyword text "美洲"%string. keyword text "美国"%string.
  keyword text "europe"%string. keyword text "欧洲"%string.
  keyword text "reset"%string. keyword text "stop"%string.
  keyword text "重置"%string.
  split; reflexivity.
Qed.

(** A recognition result touches the rotation target, the status line and
    the command time only. *)
Lemma onresult_frame now transcript j :
  let h' := hud (onresult now transcript j) in
  earthScale h' = earthScale (hud j) /\ panelUI h' = panelUI (hud j) /\
  activeContinent h' = activeContinent (hud j) /\ earthRef h' = earthRef (hud j).
Proof.
  cbv zeta. unfold onresult.
  repeat match goal with
         | |- context [if ?b then _ else _] => destruct b
         end; repeat split.
Qed.

(** ** Smoothing toward a fixed target *)

Lemma inject_nat_nonneg (n : nat) : 0 <= inject_Z (Z.of_nat n).
Proof. change 0 with (inject_Z 0). rewrite <- Zle_Qle. lia. Qed.

Section Approach.

Variables alpha t : Q.
Hypothesis alpha_pos : 0 < alpha.
Hypothesis alpha_lt_1 : alpha < 1.

(** One step multiplies the distance to the target by [1 - alpha]. *)
Lemma lerp_error (a : Q) : lerp a t alpha - t == (1 - alpha) * (a - t).
Proof. unfold lerp. ring. Qed.

Lemma lerp_below (a : Q) : a <= t -> a <= lerp a t alpha <= t.
Proof.
  intros Ha. pose proof (lerp_error a) as E.
  assert (0 <= alpha * (t - a)) by (apply Qmult_le_0_compat; lra).
  assert (0 <= (1 - alpha) * (t - a)) by (apply Qmult_le_0_compat; lra).
  unfold lerp in *. lra.
Qed.

Lemma lerp_above (a : Q) : t <= a -> t <= lerp a t alpha <= a.
Proof.
  intros Ha. pose proof (lerp_error a) as E.
  assert (0 <= alpha * (a - t)) by (apply Qmult_le_0_compat; lra).
  assert (0 <= (1 - alpha) * (a - t)) by (apply Qmult_le_0_compat; lra).
  unfold lerp in *. lra.
Qed.

Lemma lerp_apart (a : Q) : ~ a == t -> ~ lerp a t alpha == t.
Proof.
  intros Hne E.
  assert (E' : (1 - alpha) * (a - t) == 0) by (rewrite <- lerp_error; lra).
  apply Qmult_integral in E'. destruct E'; [lra | apply Hne; lra].
Qed.

Lemma smooth_below (s : Q) (n : nat) : s <= t -> smooth alpha t n s <= t.
Proof.
  intros Hs. induction n as [|n IH]; [exact Hs|].
  cbn [smooth]. now apply lerp_below.
Qed.

Lemma smooth_above (s : Q) (n : nat) : t <= s -> t <= smooth alpha t n s.
Proof.
  intros Hs. induction n as [|n IH]; [exact Hs|].
  cbn [smooth]. now apply lerp_above.
Qed.

Lemma smooth_apart (s : Q) (n : nat) : ~ s == t -> ~ smooth alpha t n s == t.
Proof.
  intros Hs. induction n as [|n IH]; [exact Hs|].
  cbn [smooth]. now apply lerp_apart.
Qed.

Lemma abs_error_step (a : Q) :
  Qabs (lerp a t alpha - t) == (1 - alpha) * Qabs (a - t).
Proof.
  rewrite lerp_error, Qabs_Qmult, (Qabs_pos (1 - alpha)); [reflexivity | lra].
Qed.

(** After [n] steps the distance is at most the first one over
    [1 + n * alpha]. *)
Lemma abs_error_bound (s : Q) (n : nat) :
  Qabs (smooth alpha t n s - t) * (1 + inject_Z (Z.of_nat n) * alpha)
  <= Qabs (s - t).
Proof.
  induction n as [|n IH].
  - cbn [smooth Z.of_nat inject_Z]. generalize (Qabs (s - t)). intros q.
    ring_simplify. lra.
  - cbn [smooth]. rewrite abs_error_step.
    rewrite Nat2Z.inj_succ, <- Z.add_1_r, inject_Z_plus.
    set (d := Qabs (smooth alpha t n s - t)) in *.
    set (k := inject_Z (Z.of_nat n)) in *.
    assert (0 <= d) by apply Qabs_nonneg.
    assert (0 <= k) by apply inject_nat_nonneg.
    assert (0 <= d * ((k + 1) * (alpha * alpha))).
    { apply Qmult_le_0_compat; [assumption|].
      apply Qmult_le_0_compat; [lra|]. apply Qmult_le_0_compat; lra. }
    setoid_replace ((1 - alpha) * d * (1 + (k + inject_Z 1) * alpha))
      with (d * (1 + k * alpha) - d * ((k + 1) * (alpha * alpha)))
      by (change (inject_Z 1) with 1; ring).
    lra.
Qed.

Lemma smooth_converges (s eps : Q) :
  0 < eps ->
  exists N, forall m, (N <= m)%nat -> Qabs (smooth alpha t m s - t) < eps.
Proof.
  intros Heps.
  set (D := Qabs (s - t)).
  exists (Z.to_nat (Qceiling (D / (eps * alpha)))).
  intros m Hm.
  apply Qnot_le_lt. intros Hge.
  pose proof (abs_error_bound s m) as Hb. fold D in Hb.
  set (d := Qabs (smooth alpha t m s - t)) in *.
  set (k := inject_Z (Z.of_nat m)) in *.
  assert (HD : 0 <= D) by apply Qabs_nonneg.
  assert (Hea : 0 < eps * alpha) by (apply Qmult_lt_0_compat; lra).
  assert (Hk : D / (eps * alpha) <= k).
  { apply Qle_trans with (inject_Z (Qceiling (D / (eps * alpha)))).
    - apply Qle_ceiling.
    - unfold k. rewrite <- Zle_Qle. lia. }
  assert (Hk0 : 0 <= k) by apply inject_nat_nonneg.
  assert (HD' : D <= k * (eps * alpha)).
  { setoid_replace D with (D / (eps * alpha) * (eps * alpha)) at 1
      by (field; lra).
    apply Qmult_le_compat_r; lra. }
  assert (Hka : 0 <= k * alpha) by (apply Qmult_le_0_compat; lra).
  assert (H1 : eps * (1 + k * alpha) <= d * (1 + k * alpha))
    by (apply Qmult_le_compat_r; lra).
  lra.
Qed.

End Approach.

(** The render callback of [part_000], run [n] times with the targets
    fixed, smooths the rotation by 0.05 and the scale by 0.1. *)
Lemma useFrame_iter (n : nat) (h : Hud) (e : Earth) :
  earthRef h = Some e ->
  exists e', earthRef (Nat.iter n useFrame h) = Some e' /\
    rotation_y e' = smooth 0.05 (y (earthRotation h)) n (rotation_y e) /\
    rotation_x e' = smooth 0.05 (x (earthRotation h)) n (rotation_x e) /\
    scale_x e' = smooth 0.1 (earthScale h) n (scale_x e) /\
    earthRotation (Nat.iter n useFrame h) = earthRotation h /\
    earthScale (Nat.iter n useFrame h) = earthScale h.
Proof.
  intros He. induction n as [|n (e' & He' & Hy & Hx & Hs & Hr & Hc)].
  - exists e. now repeat split.
  - change (Nat.iter (S n) useFrame h) with (useFrame (Nat.iter n useFrame h)).
    cbn [smooth]. rewrite <- Hy, <- Hx, <- Hs, <- Hr, <- Hc.
    set (h' := Nat.iter n useFrame h) in *.
    unfold useFrame. rewrite He'. cbv zeta.
    eexists.
    destruct (find _ CONTINENTS); cbn; repeat split; reflexivity.
Qed.

(** In exact arithmetic, with [alpha] one of 0.05 and 0.1, the smoothed
    values move toward the target from the side they start on and never pass
    it; they come as close to it as one asks; from a start different from the
    target they never equal it, and from a start equal to it they stay on
    it. *)
Lemma smooth_exact_approach (alpha t s : Q) (n : nat) :
  alpha = 0.05 \/ alpha = 0.1 ->
  (s <= t -> smooth alpha t n s <= smooth alpha t (S n) s <= t) /\
  (t <= s -> t <= smooth alpha t (S n) s <= smooth alpha t n s) /\
  (~ s == t -> ~ smooth alpha t n s == t) /\
  (s == t -> smooth alpha t n s == t) /\
  (forall eps, 0 < eps ->
     exists N, forall m, (N <= m)%nat -> Qabs (smooth alpha t m s - t) < eps).
Proof.
  intros Halpha.
  assert (Hpos : 0 < alpha) by (destruct Halpha; subst; reflexivity).
  assert (Hlt : alpha < 1) by (destruct Halpha; subst; reflexivity).
  split; [|split; [|split; [|split]]].
  - intros Hs. cbn [smooth]. apply lerp_below; auto.
    now apply smooth_below.
  - intros Hs. cbn [smooth]. apply lerp_above; auto.
    now apply smooth_above.
  - now apply smooth_apart.
  - intros Hs. apply Qle_antisym.
    + apply smooth_below; auto. lra.
    + apply smooth_above; auto. lra.
  - intros eps Heps. now apply smooth_converges.
Qed.

(** On binary64 numbers a value that [lerp64] maps to itself is kept for
    good. *)
Lemma smooth64_stalls (alpha target s c : PrimFloat.float) (k : nat) :
  smooth64 alpha target k s = c ->
  lerp64 c target alpha = c ->
  forall m, (k <= m)%nat -> smooth64 alpha target m s = c.
Proof.
  intros Hk Hfix m Hm. induction Hm as [|m Hm IH]; [exact Hk|].
  cbn [smooth64]. now rewrite IH.
Qed.

(** C5, as the code computes it. In exact arithmetic, with [alpha] one of
    0.05 and 0.1, the sequence moves toward the target from the side it
    starts on, never passes it, comes as close to it as one asks and, from a
    start different from the target, never equals it. On the binary64 numbers
    of the code none of this holds for all starts and targets: [lerp(3, 3,
    0.05)] is below 3; from 4.8 toward 3 the value is exactly 3 at frame
    653 and below 3 from frame 654 on, for good; from 0 toward 2 the value
    stays short of 2 from frame 670 on, for good. *)
Theorem C5_lerp_exact_and_binary64 (alpha t s : Q) (n : nat) :
  alpha = 0.05 \/ alpha = 0.1 ->
  ((s <= t -> smooth alpha t n s <= smooth alpha t (S n) s <= t) /\
   (t <= s -> t <= smooth alpha t (S n) s <= smooth alpha t n s) /\
   (~ s == t -> ~ smooth alpha t n s == t) /\
   (s == t -> smooth alpha t n s == t) /\
   (forall eps, 0 < eps ->
      exists N, forall m, (N <= m)%nat -> Qabs (smooth alpha t m s - t) < eps)) /\
  (PrimFloat.ltb (lerp64 3 3 0.05) 3 = true /\
   smooth64 0.05 3 653 4.8 = 3%float /\
   (forall m, (654 <= m)%nat ->
      smooth64 0.05 3 m 4.8 = 0x1.7ffffffffffffp+1%float) /\
   PrimFloat.ltb 0x1.7ffffffffffffp+1 3 = true /\
   (forall m, (670 <= m)%nat ->
      smooth64 0.05 2 m 0 = 0x1.ffffffffffff7p+0%float) /\
   PrimFloat.ltb 0x1.ffffffffffff7p+0 2 = true).
Proof.
  intros Halpha. split; [now apply smooth_exact_approach|].
  split; [vm_compute; reflexivity|].
  split; [vm_compute; reflexivity|].
  split; [apply smooth64_stalls; vm_compute; reflexivity|].
  split; [vm_compute; reflexivity|].
  split; [apply smooth64_stalls; vm_compute; reflexivity|].
  vm_compute; reflexivity.
Qed.

(** ** The two copies *)


(** ** The scale stays in range *)

Lemma lerp_range (a b : Q) :
  0.5 <= a <= 2.5 -> 0.5 <= b <= 2.5 -> 0.5 <= lerp a b 0.1 <= 2.5.
Proof. unfold lerp. intros Ha Hb. lra. Qed.

Lemma useFrame_scaleOK (h : Hud) : scaleOK h -> scaleOK (useFrame h).
Proof.
  unfold scaleOK, useFrame. intros [Ht He].
  destruct (earthRef h) as [e|] eqn:E; [|rewrite E; now split].
  cbv zeta. destruct He as (Hx & _).
  pose proof (lerp_range _ _ Hx Ht).
  destruct (find _ CONTINENTS); cbn; tauto.
Qed.

Lemma onresult_scaleOK now transcript j :
  scaleOK (hud j) -> scaleOK (hud (onresult now transcript j)).
Proof.
  destruct (onresult_frame now transcript j) as (Es & _ & _ & Er).
  unfold scaleOK. rewrite Es, Er. intros H. exact H.
Qed.

Lemma processHand_scaleOK now W H landmarks j j' :
  processHand now W H landmarks j = Some j' ->
  scaleOK (hud j) -> scaleOK (hud j').
Proof.
  unfold processHand.
  destruct (nth_error landmarks 0) as [w|], (nth_error landmarks 4) as [t|],
    (nth_error landmarks 8) as [i|], (nth_error landmarks 9) as [m|];
    try discriminate.
  cbv zeta.
  destruct (Qgtb (x w) 0.5).
  - destruct (negb (now - lastCmdTimeRef j <? 3000)%Z); intros [= <-]; auto.
    unfold scaleOK. cbn. intros [_ He]. split; [apply rawScale_range | exact He].
  - destruct (Qltb (getDistance t i) 0.05); intros [= <-]; auto.
Qed.

Lemma step_scaleOK ev j j' :
  step ev j = Some j' -> scaleOK (hud j) -> scaleOK (hud j').
Proof.
  destruct ev as [now transcript|now W H landmarks|]; cbn [step].
  - intros [= <-]. apply onresult_scaleOK.
  - apply processHand_scaleOK.
  - intros [= <-]. apply useFrame_scaleOK.
Qed.

(** The application starts in range. *)
Lemma Jarvis0_scaleOK (innerWidth : Q) : scaleOK (hud (Jarvis0 innerWidth)).
Proof. unfold scaleOK. cbn. lra. Qed.

(** C10. From a state whose scale target and rendered scale are in
    [0.5, 2.5], as the initial state is, every state that recognition
    results, hands and rendered frames lead to has its scale target and its
    rendered scale in [0.5, 2.5]. *)
Theorem C10_scale_stays_in_range (evs : list Event) (j0 j : Jarvis) :
  scaleOK (hud j0) ->
  run evs j0 = Some j ->
  scaleOK (hud j).
Proof.
  revert j0. induction evs as [|ev rest IH]; intros j0 H0 Hrun.
  - now injection Hrun as <-.
  - cbn [run] in Hrun. destruct (step ev j0) as [j1|] eqn:E; [|discriminate].
    apply (IH j1); [|exact Hrun]. now apply (step_scaleOK ev j0).
Qed.

(** A detect-loop iteration is the run of its hands. *)
Lemma detectLoop_run W H hands j :
  detectLoop W H hands j
  = run (map (fun nl => Hand (fst nl) W H (snd nl)) hands) j.
Proof.
  revert j. induction hands as [|[now l] rest IH]; intros j; [reflexivity|].
  cbn [detectLoop map run step fst snd].
  now destruct (processHand now W H l j).
Qed.

(** A run whose hands all have at least ten landmarks never raises. *)
Lemma run_total (evs : list Event) : forall j,
  Forall (fun ev => match ev with
                    | Hand _ _ _ l => (10 <= List.length l)%nat
                    | _ => True
                    end) evs ->
  exists j', run evs j = Some j'.
Proof.
  induction evs as [|ev rest IH]; intros j Hall; [now exists j|].
  inversion Hall as [|? ? Hev Hrest]; subst. cbn [run].
  destruct ev as [now transcript|now W H l|]; cbn [step].
  - now apply IH.
  - destruct (processHand_total now W H l j Hev) as [j' ->]. now apply IH.
  - now apply IH.
Qed.

(** ** Whole iterations of the detect loop *)

(** The callback raises exactly on a hand of fewer than ten landmarks. *)
Lemma processHand_None_iff now W H landmarks j :
  processHand now W H landmarks j = None <-> (List.length landmarks < 10)%nat.
Proof.
  split.
  - intros E. destruct (Nat.lt_ge_cases (List.length landmarks) 10) as [|Hge];
      [assumption|].
    destruct (processHand_total now W H landmarks j Hge) as [j' E'].
    rewrite E in E'. discriminate E'.
  - intros Hlt. unfold processHand.
    assert (E9 : nth_error landmarks 9 = None) by (apply nth_error_None; lia).
    rewrite E9.
    now destruct (nth_error landmarks 0), (nth_error landmarks 4),
      (nth_error landmarks 8).
Qed.

(** An iteration raises exactly when one of its hands has fewer than ten
    landmarks; an iteration without hands changes nothing. *)
Theorem detectLoop_raises_iff W H hands j :
  (detectLoop W H hands j = None <->
   Exists (fun nl => (List.length (snd nl) < 10)%nat) hands) /\
  detectLoop W H [] j = Some j.
Proof.
  split; [|reflexivity].
  revert j. induction hands as [|[now l] rest IH]; intros j; cbn [detectLoop].
  - split; [discriminate | intros E; inversion E].
  - destruct (processHand now W H l j) as [j1|] eqn:E.
    + rewrite IH. split.
      * intros Hex. now apply Exists_cons_tl.
      * intros Hex. inversion Hex as [? ? Hhd|? ? Htl]; subst; [|assumption].
        apply (processHand_None_iff now W H l j) in Hhd.
        rewrite E in Hhd. discriminate Hhd.
    + split; [|reflexivity]. intros _. apply Exists_cons_hd.
      now apply (processHand_None_iff now W H l j).
Qed.

(** The iteration over two lists of hands is the iteration over the second
    from the state the first leaves. *)
Lemma detectLoop_app W H hands1 hands2 j :
  detectLoop W H (hands1 ++ hands2) j =
  match detectLoop W H hands1 j with
  | Some j1 => detectLoop W H hands2 j1
  | None => None
  end.
Proof.
  revert j. induction hands1 as [|[now l] rest IH]; intros j; [reflexivity|].
  cbn [app detectLoop].
  destruct (processHand now W H l j) as [j1|]; [apply IH | reflexivity].
Qed.

Lemma processHand_frame now W H landmarks j j' :
  processHand now W H landmarks j = Some j' ->
  lastCmdTimeRef j' = lastCmdTimeRef j /\
  handStatus (hud j') = handStatus (hud j) /\
  activeContinent (hud j') = activeContinent (hud j) /\
  earthRef (hud j') = earthRef (hud j).
Proof.
  unfold processHand.
  destruct (nth_error landmarks 0) as [w|], (nth_error landmarks 4) as [t|],
    (nth_error landmarks 8) as [i|], (nth_error landmarks 9) as [m|];
    try discriminate.
  cbv zeta.
  destruct (Qgtb (x w) 0.5).
  - destruct (negb (now - lastCmdTimeRef j <? 3000)%Z);
      intros [= <-]; repeat split.
  - destruct (Qltb (getDistance t i) 0.05); intros [= <-]; repeat split.
Qed.

Lemma detectLoop_lastCmdTimeRef W H hands : forall j j',
  detectLoop W H hands j = Some j' -> lastCmdTimeRef j' = lastCmdTimeRef j.
Proof.
  induction hands as [|[now l] rest IH]; intros j j' Hrun.
  - now injection Hrun as <-.
  - cbn [detectLoop] in Hrun.
    destruct (processHand now W H l j) as [j1|] eqn:E; [|discriminate].
    rewrite (IH _ _ Hrun). now apply processHand_lastCmdTimeRef in E.
Qed.

(** The detect loop of [part_000] never writes the command time, the status
    line, the sector name or the pose of the globe. *)
Theorem detectLoop_frame W H hands j j' :
  detectLoop W H hands j = Some j' ->
  lastCmdTimeRef j' = lastCmdTimeRef j /\
  handStatus (hud j') = handStatus (hud j) /\
  activeContinent (hud j') = activeContinent (hud j) /\
  earthRef (hud j') = earthRef (hud j).
Proof.
  revert j. induction hands as [|[now l] rest IH]; intros j Hrun.
  - injection Hrun as <-. repeat split.
  - cbn [detectLoop] in Hrun.
    destruct (processHand now W H l j) as [j1|] eqn:E; [|discriminate].
    destruct (processHand_frame _ _ _ _ _ _ E) as (E1 & E2 & E3 & E4).
    destruct (IH _ Hrun) as (F1 & F2 & F3 & F4).
    repeat split; congruence.
Qed.

(** Hands with [wrist.x <= 0.5] leave the rotation and scale targets as they
    are. *)
Lemma detectLoop_pointers W H hands : forall j,
  Forall (fun nl => exists w t i m,
            hand_at (snd nl) w t i m /\ x w <= 0.5) hands ->
  exists j', detectLoop W H hands j = Some j' /\
             earthRotation (hud j') = earthRotation (hud j) /\
             earthScale (hud j') = earthScale (hud j).
Proof.
  induction hands as [|[now l] rest IH]; intros j Hall.
  - now exists j.
  - inversion Hall as [|? ? (w & t & i & m & Hh & Hw) Hrest]; subst.
    cbn [snd] in Hh. cbn [detectLoop].
    rewrite (processHand_eq now W H _ _ _ _ _ j Hh).
    apply role_of_Pointer in Hw. rewrite Hw.
    destruct (Qltb (getDistance t i) 0.05).
    + destruct (IH (with_hud (setPanelUI (mkVec2 ((1 - x i) * W) (y i * H))) j)
                  Hrest) as (j' & E & Er & Es).
      exists j'. now repeat split.
    + now apply IH.
Qed.

(** Last processed wins: the last hand with [wrist.x > 0.5] of an iteration,
    when it is processed outside the window, decides both targets. *)
Theorem detectLoop_last_orientation_wins W H pre now landmarks post
    wrist thumbTip indexTip mid j j1 :
  detectLoop W H pre j = Some j1 ->
  hand_at landmarks wrist thumbTip indexTip mid ->
  0.5 < x wrist ->
  (3000 <= now - lastCmdTimeRef j)%Z ->
  Forall (fun nl => exists w t i m,
            hand_at (snd nl) w t i m /\ x w <= 0.5) post ->
  exists j', detectLoop W H (pre ++ (now, landmarks) :: post) j = Some j' /\
             earthRotation (hud j') = gestureRotation mid /\
             earthScale (hud j') = rawScale (getDistance thumbTip indexTip).
Proof.
  intros Hpre Hh Hw Hnow Hpost.
  rewrite detectLoop_app, Hpre. cbn [detectLoop].
  rewrite (processHand_eq now W H _ _ _ _ _ j1 Hh).
  apply role_of_Orientation in Hw. rewrite Hw.
  rewrite (detectLoop_lastCmdTimeRef _ _ _ _ _ Hpre).
  apply Z.ltb_ge in Hnow. rewrite Hnow.
  match goal with
  | |- context [detectLoop W H post ?s] =>
    destruct (detectLoop_pointers W H post s Hpost) as (j' & E & Er & Es)
  end.
  exists j'. now repeat split.
Qed.

(** ** The panel *)

(** The voice window never holds the panel back: what a hand with
    [wrist.x <= 0.5] does to the cells of [JarvisHUD] depends neither on the
    clock nor on the command time. *)
Theorem pointer_ignores_window W H landmarks wrist thumbTip indexTip mid
    h now now' t t' :
  hand_at landmarks wrist thumbTip indexTip mid ->
  x wrist <= 0.5 ->
  option_map hud (processHand now W H landmarks (mkJarvis h t)) =
  option_map hud (processHand now' W H landmarks (mkJarvis h t')).
Proof.
  intros Hh Hw.
  rewrite (processHand_eq now W H _ _ _ _ _ _ Hh),
    (processHand_eq now' W H _ _ _ _ _ _ Hh).
  apply role_of_Pointer in Hw. rewrite Hw.
  now destruct (Qltb (getDistance thumbTip indexTip) 0.05).
Qed.

(** A pinching hand with [wrist.x <= 0.5] whose index tip is in the unit
    square puts the panel inside the window; a hand that does not pinch
    leaves everything as it is. *)
Theorem pointer_panel_on_screen now W H landmarks wrist thumbTip indexTip mid j :
  hand_at landmarks wrist thumbTip indexTip mid ->
  x wrist <= 0.5 ->
  normalized indexTip ->
  0 <= W -> 0 <= H ->
  exists j', processHand now W H landmarks j = Some j' /\
    (getDistance thumbTip indexTip < 0.05 ->
       0 <= x (panelUI (hud j')) <= W /\ 0 <= y (panelUI (hud j')) <= H) /\
    (0.05 <= getDistance thumbTip indexTip -> j' = j).
Proof.
  intros Hh Hw [[Hx0 Hx1] [Hy0 Hy1]] HW HH.
  rewrite (processHand_eq now W H _ _ _ _ _ j Hh).
  apply role_of_Pointer in Hw. rewrite Hw.
  eexists. split; [reflexivity|].
  destruct (Qltb (getDistance thumbTip indexTip) 0.05) eqn:E.
  - split; [|apply Qltb_lt in E; intros; exfalso; lra].
    intros _. cbn.
    assert (0 <= (1 - x indexTip) * W) by (apply Qmult_le_0_compat; lra).
    assert (0 <= x indexTip * W) by (apply Qmult_le_0_compat; lra).
    assert (0 <= y indexTip * H) by (apply Qmult_le_0_compat; lra).
    assert (0 <= (1 - y indexTip) * H) by (apply Qmult_le_0_compat; lra).
    repeat split; lra.
  - apply Qltb_ge in E. split; [intros; exfalso; lra | reflexivity].
Qed.

(** ** Sequences of utterances *)

Ltac no_keyword text k H :=
  destruct (includes text k);
  cbn [orb find existsb fst snd option_map] in H |- *;
  [discriminate H|].

(** An utterance without keyword changes the status line and nothing else;
    the status line shows the trimmed, lower-cased text in every case. *)
Theorem onresult_unmatched now transcript j :
  voiceTarget (toLowerCase (trim transcript)) = None ->
  onresult now transcript j = with_hud (setHandStatus (cmdStatus transcript)) j /\
  forall now' transcript' j',
    handStatus (hud (onresult now' transcript' j')) = cmdStatus transcript'.
Proof.
  intros Hnone. split.
  - unfold onresult, cmdStatus. revert Hnone. unfold voiceTarget, VOICE_TABLE.
    set (text := toLowerCase (trim transcript)).
    cbn [find existsb fst snd]. intros Hnone.
    no_keyword text "africa"%string Hnone. no_keyword text "非洲"%string Hnone.
    no_keyword text "asia"%string Hnone. no_keyword text "china"%string Hnone.
    no_keyword text "亚洲"%string Hnone. no_keyword text "中国"%string Hnone.
    no_keyword text "america"%string Hnone. no_keyword text "usa"%string Hnone.
    no_keyword text "美洲"%string Hnone. no_keyword text "美国"%string Hnone.
    no_keyword text "europe"%string Hnone. no_keyword text "欧洲"%string Hnone.
    no_keyword text "reset"%string Hnone. no_keyword text "stop"%string Hnone.
    no_keyword text "重置"%string Hnone.
    reflexivity.
  - intros now' transcript' j'. unfold onresult, cmdStatus.
    repeat match goal with
           | |- context [if ?b then _ else _] => destruct b
           end; reflexivity.
Qed.

(** The rotation target and the command time after a result, by the table. *)
Lemma onresult_target now transcript j :
  earthRotation (hud (onresult now transcript j)) =
    match voiceTarget (toLowerCase (trim transcript)) with
    | Some r => r
    | None => earthRotation (hud j)
    end /\
  lastCmdTimeRef (onresult now transcript j) =
    match voiceTarget (toLowerCase (trim transcript)) with
    | Some _ => now
    | None => lastCmdTimeRef j
    end.
Proof.
  unfold onresult, voiceTarget, VOICE_TABLE.
  set (text := toLowerCase (trim transcript)).
  cbn [find existsb fst snd].
  keyword text "africa"%string. keyword text "非洲"%string.
  keyword text "asia"%string. keyword text "china"%string.
  keyword text "亚洲"%string. keyword text "中国"%string.
  keyword text "america"%string. keyword text "usa"%string.
  keyword text "美洲"%string. keyword text "美国"%string.
  keyword text "europe"%string. keyword text "欧洲"%string.
  keyword text "reset"%string. keyword text "stop"%string.
  keyword text "重置"%string.
  split; reflexivity.
Qed.

Lemma onresults_unmatched (utterances : list (Z * string)) : forall j,
  Forall (fun u => voiceTarget (toLowerCase (trim (snd u))) = None) utterances ->
  earthRotation (hud (onresults utterances j)) = earthRotation (hud j) /\
  lastCmdTimeRef (onresults utterances j) = lastCmdTimeRef j.
Proof.
  induction utterances as [|[now t] rest IH]; intros j Hall; [now split|].
  inversion Hall as [|? ? Hhd Hrest]; subst. cbn [snd] in Hhd.
  unfold onresults. cbn [fold_left fst snd].
  destruct (IH (onresult now t j) Hrest) as [Er Et].
  unfold onresults in Er, Et. rewrite Er, Et.
  destruct (onresult_target now t j) as [-> ->]. now rewrite Hhd.
Qed.

(** Matches are not queued: after a sequence of results the rotation target
    and the command time are those of the last result with a keyword,
    whatever came before it. *)
Theorem onresults_last_match pre now transcript post r j :
  voiceTarget (toLowerCase (trim transcript)) = Some r ->
  Forall (fun u => voiceTarget (toLowerCase (trim (snd u))) = None) post ->
  earthRotation (hud (onresults (pre ++ (now, transcript) :: post) j)) = r /\
  lastCmdTimeRef (onresults (pre ++ (now, transcript) :: post) j) = now.
Proof.
  intros Hm Hpost. unfold onresults. rewrite fold_left_app.
  cbn [fold_left fst snd].
  set (j1 := fold_left _ pre j).
  destruct (onresults_unmatched post (onresult now transcript j1) Hpost)
    as [Er Et].
  unfold onresults in Er, Et. rewrite Er, Et.
  destruct (onresult_target now transcript j1) as [-> ->]. now rewrite Hm.
Qed.

Ltac old_keyword text k :=
  destruct (includes text k);
  cbn [orb hud with_hud set_earthRotation earthRotation setHandStatus];
  [reflexivity|].

(** On an utterance with none of the added keywords the two voice hooks set
    the same rotation target. *)
Theorem voice_hooks_agree now transcript j :
  Forall (fun k => includes (toLowerCase (trim transcript)) k = false)
         addedKeywords ->
  earthRotation (hud (onresult now transcript j)) =
  earthRotation (App_onresult transcript (hud j)).
Proof.
  unfold addedKeywords. intros Hall.
  repeat match goal with
         | H : Forall _ (_ :: _) |- _ =>
           let Hk := fresh "Hk" in
           inversion H as [|? ? Hk ?]; subst; clear H
         end.
  unfold onresult, App_onresult.
  set (text := toLowerCase (trim transcript)) in *.
  rewrite Hk, Hk0, Hk1, Hk2, Hk3, Hk4, Hk5, Hk6, Hk7.
  rewrite !orb_false_r.
  old_keyword text "africa"%string. old_keyword text "asia"%string.
  old_keyword text "china"%string. old_keyword text "america"%string.
  old_keyword text "europe"%string. old_keyword text "reset"%string.
  reflexivity.
Qed.

(** ** What a rendered frame writes *)

Lemma CONTINENTS_disjoint (a : Q) (c c' : Continent) :
  In c CONTINENTS -> In c' CONTINENTS ->
  in_rad a c = true -> in_rad a c' = true -> c = c'.
Proof.
  rewrite !in_rad_iff. intros Hc Hc' Hr Hr'.
  destruct Hc as [<-|[<-|[<-|[<-|[<-|[]]]]]];
    destruct Hc' as [<-|[<-|[<-|[<-|[<-|[]]]]]];
    cbn [rad fst snd] in Hr, Hr'; try reflexivity; exfalso; lra.
Qed.

(** When the reflected angle of the frame is in the range of an entry, the
    callback shows the name of that entry. *)
Theorem useFrame_shows_sector (h : Hud) (a : Q) (c : Continent) :
  frameAngle h = Some a ->
  In c CONTINENTS ->
  fst (rad c) <= a < snd (rad c) ->
  activeContinent (useFrame h) = name c.
Proof.
  unfold frameAngle, useFrame. intros Ha Hc Hr.
  destruct (earthRef h) as [e|]; [|discriminate Ha].
  cbn [option_map] in Ha. injection Ha as <-. cbv zeta.
  apply in_rad_iff in Hr.
  destruct (find _ CONTINENTS) as [c'|] eqn:E.
  - apply find_some in E. destruct E as [Hc' Hr'].
    now rewrite (CONTINENTS_disjoint _ c' c Hc' Hc Hr' Hr).
  - apply find_none with (x := c) in E; [|exact Hc].
    rewrite Hr in E. discriminate E.
Qed.

(** A rendered frame leaves the targets, the status line and the panel as
    they are, keeps the globe mounted or not as it was, leaves the three scale
    components equal, and does nothing at all without a globe. *)
Theorem useFrame_frame (h : Hud) :
  earthRotation (useFrame h) = earthRotation h /\
  earthScale (useFrame h) = earthScale h /\
  handStatus (useFrame h) = handStatus h /\
  panelUI (useFrame h) = panelUI h /\
  (earthRef (useFrame h) = None <-> earthRef h = None) /\
  (earthRef h = None -> useFrame h = h) /\
  (forall e', earthRef (useFrame h) = Some e' ->
     scale_y e' = scale_x e' /\ scale_z e' = scale_x e').
Proof.
  unfold useFrame. destruct (earthRef h) as [e|] eqn:E.
  - cbv zeta.
    destruct (find _ CONTINENTS); cbn;
      (do 4 (split; [reflexivity|]));
      (split; [split; discriminate|]);
      (split; [discriminate|]);
      intros e' [= <-]; split; reflexivity.
  - rewrite E. do 4 (split; [reflexivity|]).
    split; [tauto|]. split; [reflexivity | discriminate].
Qed.

(** ** More that every run keeps *)

Lemma voiceTarget_in_table (text : string) (r : Vec2) :
  voiceTarget text = Some r -> In r (map snd VOICE_TABLE).
Proof.
  unfold voiceTarget.
  destruct (find _ VOICE_TABLE) as [entry|] eqn:E; [|discriminate].
  intros [= <-]. apply find_some in E. apply in_map. exact (proj1 E).
Qed.

Lemma onresult_rotationOK now transcript j :
  rotationOK (hud j) -> rotationOK (hud (onresult now transcript j)).
Proof.
  unfold rotationOK. intros [Ht He].
  destruct (onresult_frame now transcript j) as (_ & _ & _ & Er).
  rewrite Er. split; [|exact He].
  destruct (onresult_target now transcript j) as [Eq _]. rewrite Eq.
  destruct (voiceTarget _) as [r|] eqn:Ev; [|exact Ht].
  apply voiceTarget_in_table in Ev.
  destruct Ev as [<-|[<-|[<-|[<-|[<-|[]]]]]]; cbn; lra.
Qed.

Lemma useFrame_rotationOK (h : Hud) : rotationOK h -> rotationOK (useFrame h).
Proof.
  unfold rotationOK, useFrame. intros [[Hx Hy] He].
  destruct (earthRef h) as [e|] eqn:E; [|rewrite E; tauto].
  cbv zeta. destruct He as [Hex Hey].
  assert (Hlx : -2 <= lerp (rotation_x e) (x (earthRotation h)) 0.05 <= 2)
    by (unfold lerp; lra).
  assert (Hly : -4 <= lerp (rotation_y e) (y (earthRotation h)) 0.05 <= 5.8)
    by (unfold lerp; lra).
  destruct (find _ CONTINENTS); cbn; tauto.
Qed.

Lemma processHand_rotationOK now W H landmarks j j' :
  mid_normalized (Hand now W H landmarks) ->
  processHand now W H landmarks j = Some j' ->
  rotationOK (hud j) -> rotationOK (hud j').
Proof.
  cbn [mid_normalized]. intros Hmid. unfold processHand.
  destruct (nth_error landmarks 0) as [w|], (nth_error landmarks 4) as [t|],
    (nth_error landmarks 8) as [i|], (nth_error landmarks 9) as [m|];
    try discriminate.
  destruct (Hmid m eq_refl) as [Hmx Hmy].
  cbv zeta.
  destruct (Qgtb (x w) 0.5).
  - destruct (negb (now - lastCmdTimeRef j <? 3000)%Z); intros [= <-]; auto.
    unfold rotationOK. cbn. intros [_ He]. split; [lra | exact He].
  - destruct (Qltb (getDistance t i) 0.05); intros [= <-]; auto.
Qed.

(** With landmark 9 of every hand in the unit square, the rotation target
    and the rendered rotation stay in the box [x] in [-2, 2], [y] in
    [-4, 5.8]. *)
Theorem rotation_stays_in_box (evs : list Event) (j0 j : Jarvis) :
  rotationOK (hud j0) ->
  Forall mid_normalized evs ->
  run evs j0 = Some j ->
  rotationOK (hud j).
Proof.
  revert j0. induction evs as [|ev rest IH]; intros j0 H0 Hall Hrun.
  - now injection Hrun as <-.
  - inversion Hall as [|? ? Hev Hrest]; subst.
    cbn [run] in Hrun. destruct (step ev j0) as [j1|] eqn:E; [|discriminate].
    apply (IH j1); [|exact Hrest|exact Hrun].
    destruct ev as [now transcript|now W H landmarks|]; cbn [step] in E.
    + injection E as <-. now apply onresult_rotationOK.
    + now apply (processHand_rotationOK now W H landmarks j0).
    + injection E as <-. now apply useFrame_rotationOK.
Qed.

Lemma useFrame_sectorName (h : Hud) :
  In (activeContinent h) sectorNames ->
  In (activeContinent (useFrame h)) sectorNames.
Proof.
  unfold useFrame. intros Hin.
  destruct (earthRef h) as [e|]; [|exact Hin]. cbv zeta.
  destruct (find _ CONTINENTS) as [c|] eqn:E; [|exact Hin].
  apply find_some in E. destruct E as [Hc _].
  cbn [activeContinent setContinent]. unfold sectorNames.
  right. now apply in_map.
Qed.

(** The sector panel only ever shows [SCANNING...] or a name of the table. *)
Theorem sector_name_known (evs : list Event) (j0 j : Jarvis) :
  In (activeContinent (hud j0)) sectorNames ->
  run evs j0 = Some j ->
  In (activeContinent (hud j)) sectorNames.
Proof.
  revert j0. induction evs as [|ev rest IH]; intros j0 H0 Hrun.
  - now injection Hrun as <-.
  - cbn [run] in Hrun. destruct (step ev j0) as [j1|] eqn:E; [|discriminate].
    apply (IH j1); [|exact Hrun].
    destruct ev as [now transcript|now W H landmarks|]; cbn [step] in E.
    + injection E as <-.
      destruct (onresult_frame now transcript j0) as (_ & _ & Ea & _).
      now rewrite Ea.
    + destruct (processHand_frame _ _ _ _ _ _ E) as (_ & _ & Ea & _).
      now rewrite Ea.
    + injection E as <-. now apply useFrame_sectorName.
Qed.

(** ** The detect loop and the runs of [App.tsx] *)

Lemma App_processHand_keeps W H landmarks h h' :
  App_processHand W H landmarks h = Some h' ->
  handStatus h' = handStatus h /\
  activeContinent h' = activeContinent h /\
  earthRef h' = earthRef h /\
  (0.5 <= earthScale h <= 2.5 -> 0.5 <= earthScale h' <= 2.5).
Proof.
  unfold App_processHand.
  destruct (nth_error landmarks 0) as [w|], (nth_error landmarks 4) as [t|],
    (nth_error landmarks 8) as [i|], (nth_error landmarks 9) as [m|];
    try discriminate.
  cbv zeta.
  destruct (Qgtb (x w) 0.5).
  - intros [= <-]. do 3 (split; [reflexivity|]).
    intros _. apply rawScale_range.
  - destruct (Qltb (getDistance t i) 0.05); intros [= <-];
      do 3 (split; [reflexivity|]); tauto.
Qed.

Lemma App_forEach_keeps W H hands : forall h h',
  App_forEach W H hands h = Some h' ->
  handStatus h' = handStatus h /\
  activeContinent h' = activeContinent h /\
  earthRef h' = earthRef h /\
  (0.5 <= earthScale h <= 2.5 -> 0.5 <= earthScale h' <= 2.5).
Proof.
  induction hands as [|l rest IH]; intros h h' Hrun.
  - injection Hrun as <-. do 3 (split; [reflexivity|]). tauto.
  - cbn [App_forEach] in Hrun.
    destruct (App_processHand W H l h) as [h1|] eqn:E; [|discriminate].
    destruct (App_processHand_keeps _ _ _ _ _ E) as (E1 & E2 & E3 & E4).
    destruct (IH _ _ Hrun) as (F1 & F2 & F3 & F4).
    split; [congruence|]. split; [congruence|]. split; [congruence|].
    intros Hs. apply F4, E4, Hs.
Qed.

(** The detect loop of [App.tsx] replaces the status line by the number of
    hands whenever there is one, so the echo of an utterance is lost, and
    leaves the sector name and the pose of the globe as they are; without
    hands it changes nothing. *)
Theorem App_detectLoop_status W H hands h h' :
  App_detectLoop W H hands h = Some h' ->
  (hands <> [] ->
   handStatus h' =
   ("TARGETS: " ++ NilEmpty.string_of_uint (Nat.to_uint (List.length hands)))%string) /\
  (hands = [] -> h' = h) /\
  activeContinent h' = activeContinent h /\
  earthRef h' = earthRef h.
Proof.
  intros Hrun. destruct hands as [|l rest].
  - injection Hrun as <-. split; [intros Hne; now elim Hne|]. now repeat split.
  - unfold App_detectLoop in Hrun.
    destruct (App_forEach_keeps _ _ _ _ _ Hrun) as (E & Ea & Er & _).
    split; [intros _; exact E|]. split; [discriminate|].
    split; [exact Ea | exact Er].
Qed.

Lemma App_useFrame_scaleOK (h : Hud) : scaleOK h -> scaleOK (App_useFrame h).
Proof.
  unfold scaleOK, App_useFrame. intros [Ht He].
  destruct (earthRef h) as [e|] eqn:E; [|rewrite E; now split].
  cbv zeta. destruct He as (Hx & _).
  pose proof (lerp_range _ _ Hx Ht).
  destruct (find _ CONTINENTS); cbn; tauto.
Qed.

Lemma App_onresult_keeps transcript h :
  earthScale (App_onresult transcript h) = earthScale h /\
  earthRef (App_onresult transcript h) = earthRef h /\
  panelUI (App_onresult transcript h) = panelUI h /\
  activeContinent (App_onresult transcript h) = activeContinent h.
Proof.
  unfold App_onresult.
  repeat match goal with
         | |- context [if ?b then _ else _] => destruct b
         end; repeat split.
Qed.

(** In [App.tsx] too the scale target and the rendered scale stay in
    [0.5, 2.5] through utterances, detect-loop iterations and rendered
    frames. *)
Theorem App_scale_stays_in_range (evs : list App_Event) (h0 h : Hud) :
  scaleOK h0 ->
  App_run evs h0 = Some h ->
  scaleOK h.
Proof.
  revert h0. induction evs as [|ev rest IH]; intros h0 H0 Hrun.
  - now injection Hrun as <-.
  - cbn [App_run] in Hrun.
    destruct (App_step ev h0) as [h1|] eqn:E; [|discriminate].
    apply (IH h1); [|exact Hrun].
    destruct ev as [transcript|W H hands|]; cbn [App_step] in E.
    + injection E as <-. unfold scaleOK in *.
      destruct (App_onresult_keeps transcript h0) as (Es & Er & _).
      now rewrite Es, Er.
    + unfold App_detectLoop in E. destruct hands as [|l rest'].
      * now injection E as <-.
      * destruct (App_forEach_keeps _ _ _ _ _ E) as (_ & _ & Er & Hs).
        unfold scaleOK in *. cbn [earthRef setHandStatus] in Er.
        rewrite Er. split; [apply Hs; cbn; tauto | tauto].
    + injection E as <-. now apply App_useFrame_scaleOK.
Qed.

(** The voice hook of [App.tsx] has no say once a hand with [wrist.x > 0.5]
    is seen: whatever the targets were, after the hand they are those of the
    gesture. *)
Theorem App_gesture_overrides_voice W H transcript landmarks
    wrist thumbTip indexTip mid h :
  hand_at landmarks wrist thumbTip indexTip mid ->
  0.5 < x wrist ->
  exists h', App_processHand W H landmarks (App_onresult transcript h) = Some h' /\
             earthRotation h' = gestureRotation mid /\
             earthScale h' = rawScale (getDistance thumbTip indexTip).
Proof.
  intros Hh Hw.
  destruct (App_processHand_scale W H landmarks wrist thumbTip indexTip mid
              (App_onresult transcript h) Hh Hw) as (h' & E & Es & Er).
  exists h'. now repeat split.
Qed.

End Runtime.

(** ** The theorems on concrete inputs *)

(** A voice match at time 1000 and the orientation hand at time 2000 and at
    time 4000, the end of the window. *)
Lemma C1_voice_window_rotation_witness :
  exists j',
    processHand sqrt_floor 4000 1000 800 orientationHand
      (onresult ascii_trim ascii_toLowerCase 1000 "go to asia" (Jarvis0 1000))
    = Some j' /\
    earthRotation (hud j') = mkVec2 ((0.25 - 0.5) * 4) ((0.75 - 0.5) * 8).
Proof.
  destruct (C1_voice_window_rotation sqrt_floor 4000 1000 800 orientationHand
              (mkVec2 0.6 0.5) (mkVec2 0 0) (mkVec2 0.3 0.4) (mkVec2 0.75 0.25)
              (onresult ascii_trim ascii_toLowerCase 1000 "go to asia"
                 (Jarvis0 1000)))
    as (j' & Hrun & _ & Hafter & _).
  - repeat split.
  - reflexivity.
  - exists j'. split; [exact Hrun|]. apply Hafter. vm_compute. discriminate.
Defined.

(** C2 as stated fails: inside the window a hand with [wrist.x > 0.5] and
    pinch distance 0.5 leaves the scale target at 1, not at
    [clamp(0.5 * 8, 0.5, 2.5) = 2.5]. *)
Lemma C2_counterexample :
  exists j',
    processHand sqrt_floor 2000 1000 800 orientationHand
      (onresult ascii_trim ascii_toLowerCase 1000 "go to asia" (Jarvis0 1000))
    = Some j' /\
    earthScale (hud j') == 1 /\
    rawScale (getDistance sqrt_floor (mkVec2 0 0) (mkVec2 0.3 0.4)) == 2.5 /\
    ~ earthScale (hud j') == 2.5.
Proof.
  eexists. split; [vm_compute; reflexivity|].
  repeat split; vm_compute; discriminate.
Qed.

Lemma C2_scale_follows_window_witness :
  exists j',
    processHand sqrt_floor 4000 1000 800 orientationHand
      (onresult ascii_trim ascii_toLowerCase 1000 "go to asia" (Jarvis0 1000))
    = Some j' /\
    earthScale (hud j') =
    Math_max 0.5 (Math_min 2.5
      (getDistance sqrt_floor (mkVec2 0 0) (mkVec2 0.3 0.4) * 8)).
Proof.
  destruct (C2_scale_follows_window sqrt_floor ascii_trim ascii_toLowerCase
              4000 1000 800 orientationHand
              (mkVec2 0.6 0.5) (mkVec2 0 0) (mkVec2 0.3 0.4) (mkVec2 0.75 0.25)
              (onresult ascii_trim ascii_toLowerCase 1000 "go to asia"
                 (Jarvis0 1000)))
    as (j' & Hrun & _ & Hafter & _).
  - repeat split.
  - reflexivity.
  - exists j'. split; [exact Hrun|]. apply Hafter. vm_compute. discriminate.
Defined.

(** C3 as stated fails: 6.281 is in [0, 2 * Math.PI) and in no sector. *)
Lemma C3_counterexample :
  0 <= 6.281 /\ 6.281 < Math_PI * 2 /\ sector_of 6.281 = None.
Proof. repeat split. vm_compute. discriminate. Qed.

(** C5 as stated fails on the numbers of the code: from 4.8 toward 3 with
    factor 0.05 the value equals the target at frame 653 and has passed it at
    frame 654; and from a start on the target the value is the target at
    once. *)
Lemma C5_counterexample_binary64 :
  smooth64 0.05 3 653 4.8 = 3%float /\
  PrimFloat.ltb (smooth64 0.05 3 654 4.8) 3 = true /\
  smooth64 0.05 0 1 0 = 0%float /\
  smooth 0.05 0 1 0 == 0.
Proof. repeat split; vm_compute; reflexivity. Qed.

Lemma C5_lerp_exact_and_binary64_witness :
  (0 <= 1 -> 0 <= smooth 0.05 0 4 1 <= smooth 0.05 0 3 1) /\
  (~ 1 == 0 -> ~ smooth 0.05 0 3 1 == 0) /\
  smooth64 0.05 3 653 4.8 = 3%float.
Proof.
  destruct (C5_lerp_exact_and_binary64 0.05 0 1 3 (or_introl eq_refl))
    as ((_ & Habove & Hapart & _) & _ & Hreach & _).
  repeat split; assumption.
Defined.

(** Two hands with the wrist at [x = 0.6] and different other landmarks, both
    outside the window: both steer the globe. *)
Lemma C7_branch_from_wrist_x_witness :
  processHand sqrt_floor 5000 1000 800 orientationHand (Jarvis0 1000)
    = Some (orientationEffect sqrt_floor 5000 (mkVec2 0 0) (mkVec2 0.3 0.4)
              (mkVec2 0.75 0.25) (Jarvis0 1000)) /\
  processHand sqrt_floor 5000 1000 800 centredHand (Jarvis0 1000)
    = Some (orientationEffect sqrt_floor 5000 (mkVec2 0.5 0.5) (mkVec2 0.5 0.7)
              (mkVec2 0.5 0.5) (Jarvis0 1000)).
Proof.
  destruct (C7_branch_from_wrist_x sqrt_floor 5000 1000 800 (Jarvis0 1000)
              orientationHand (mkVec2 0.6 0.5) (mkVec2 0 0) (mkVec2 0.3 0.4)
              (mkVec2 0.75 0.25)
              centredHand (mkVec2 0.6 0.5) (mkVec2 0.5 0.5) (mkVec2 0.5 0.7)
              (mkVec2 0.5 0.5))
    as ([(_ & E1 & E2)|(Hle & _)] & _).
  - repeat split.
  - repeat split.
  - reflexivity.
  - split; assumption.
  - exfalso. revert Hle. vm_compute. intros Hle. now apply Hle.
Defined.

(** The first frame: the globe at rotation 0 with the target at 0 gives the
    reflected angle [2 * Math.PI], and the name stays [SCANNING...]. *)
Lemma C8_no_sector_keeps_name_witness :
  activeContinent (useFrame (Hud0 1000)) = "SCANNING..."%string.
Proof.
  apply (C8_no_sector_keeps_name (Hud0 1000)).
  intros a c [= <-] Hc. rewrite <- in_rad_iff.
  destruct Hc as [<-|[<-|[<-|[<-|[<-|[]]]]]]; vm_compute; discriminate.
Defined.



Lemma C10_scale_stays_in_range_witness :
  exists j,
    run sqrt_floor ascii_trim ascii_toLowerCase
      [Voice 1000 "reset"; Hand 5000 1000 800 orientationHand; Render; Render]
      (Jarvis0 1000) = Some j /\
    scaleOK (hud j).
Proof.
  eexists. split; [vm_compute; reflexivity|].
  apply (C10_scale_stays_in_range sqrt_floor ascii_trim ascii_toLowerCase
           [Voice 1000 "reset"; Hand 5000 1000 800 orientationHand; Render; Render]
           (Jarvis0 1000)).
  - apply Jarvis0_scaleOK.
  - vm_compute. reflexivity.
Defined.

(** ** Scenarios of the specification *)

(** The utterance [go to asia] at time 0 sets the target (0.2, 2.0); the
    gesture asking for (0, 0) is discarded at time 1000 and honoured at time
    3100. *)
Example scenario_go_to_asia :
  let j0 := onresult ascii_trim ascii_toLowerCase 0 "Go to Asia " (Jarvis0 1000) in
  earthRotation (hud j0) = mkVec2 0.2 2.0 /\
  option_map (fun j => earthRotation (hud j))
    (processHand sqrt_floor 1000 1000 800 centredHand j0) = Some (mkVec2 0.2 2.0) /\
  exists r,
    option_map (fun j => earthRotation (hud j))
      (processHand sqrt_floor 3100 1000 800 centredHand j0) = Some r /\
    x r == 0 /\ y r == 0.
Proof.
  cbv zeta. split; [reflexivity|]. split; [reflexivity|].
  eexists. split; [vm_compute; reflexivity|]. split; reflexivity.
Qed.

(** The pinch distance 0.2 gives the raw scale 1.6. *)
Example scenario_pinch : rawScale 0.2 == 1.6.
Proof. reflexivity. Qed.

(** With no hand for 100 frames and the target (0.3, 5.8), the rotation of
    the globe moves from 0 toward 5.8 in every frame and stays below it. *)
Example scenario_no_hands (n : nat) :
  smooth 0.05 5.8 n 0 <= smooth 0.05 5.8 (S n) 0 <= 5.8.
Proof.
  cbn [smooth]. apply lerp_below; try lra.
  apply smooth_below; lra.
Qed.

(** ** More properties on concrete inputs *)

Lemma detectLoop_frame_witness :
  exists j',
    detectLoop sqrt_floor 1000 800 [(2000%Z, orientationHand); (2001%Z, pointerHand)]
      (Jarvis0 1000) = Some j' /\
    lastCmdTimeRef j' = lastCmdTimeRef (Jarvis0 1000) /\
    handStatus (hud j') = handStatus (hud (Jarvis0 1000)) /\
    activeContinent (hud j') = activeContinent (hud (Jarvis0 1000)) /\
    earthRef (hud j') = earthRef (hud (Jarvis0 1000)).
Proof.
  eexists. split; [vm_compute; reflexivity|].
  apply (detectLoop_frame sqrt_floor 1000 800
           [(2000%Z, orientationHand); (2001%Z, pointerHand)] (Jarvis0 1000)).
  vm_compute. reflexivity.
Defined.

Lemma detectLoop_suppressed_witness :
  exists j',
    detectLoop sqrt_floor 1000 800 [(1500%Z, orientationHand); (1600%Z, pointerHand)]
      (onresult ascii_trim ascii_toLowerCase 1000 "asia" (Jarvis0 1000)) = Some j' /\
    earthRotation (hud j') = mkVec2 0.2 2.0 /\ earthScale (hud j') = 1.
Proof.
  eexists. split; [vm_compute; reflexivity|].
  apply (detectLoop_suppressed sqrt_floor 1000 800
           [(1500%Z, orientationHand); (1600%Z, pointerHand)]
           (onresult ascii_trim ascii_toLowerCase 1000 "asia" (Jarvis0 1000))).
  - vm_compute. reflexivity.
  - repeat constructor.
Defined.

Lemma detectLoop_last_orientation_wins_witness :
  exists j',
    detectLoop sqrt_floor 1000 800
      ([(5000%Z, pointerHand)] ++ (5001%Z, orientationHand) :: [(5002%Z, pointerHand)])
      (Jarvis0 1000) = Some j' /\
    earthRotation (hud j') = gestureRotation (mkVec2 0.75 0.25) /\
    earthScale (hud j')
    = rawScale (getDistance sqrt_floor (mkVec2 0 0) (mkVec2 0.3 0.4)).
Proof.
  eapply (detectLoop_last_orientation_wins sqrt_floor 1000 800
            [(5000%Z, pointerHand)] 5001 orientationHand [(5002%Z, pointerHand)]
            (mkVec2 0.6 0.5) (mkVec2 0 0) (mkVec2 0.3 0.4) (mkVec2 0.75 0.25)
            (Jarvis0 1000)).
  - vm_compute. reflexivity.
  - repeat split.
  - reflexivity.
  - vm_compute. discriminate.
  - constructor; [|constructor].
    exists (mkVec2 0.3 0.5), (mkVec2 0.25 0.47), (mkVec2 0.25 0.5), (mkVec2 0.3 0.4).
    split; [repeat split | vm_compute; discriminate].
Defined.

Lemma pointer_ignores_window_witness :
  option_map hud (processHand sqrt_floor 100 1000 800 pointerHand
                    (mkJarvis (Hud0 1000) 0)) =
  option_map hud (processHand sqrt_floor 5000 1000 800 pointerHand
                    (mkJarvis (Hud0 1000) 4000)).
Proof.
  apply (pointer_ignores_window sqrt_floor 1000 800 pointerHand
           (mkVec2 0.3 0.5) (mkVec2 0.25 0.47) (mkVec2 0.25 0.5) (mkVec2 0.3 0.4)).
  - repeat split.
  - vm_compute. discriminate.
Defined.

Lemma pointer_panel_on_screen_witness :
  exists j',
    processHand sqrt_floor 100 1000 800 pointerHand (Jarvis0 1000) = Some j' /\
    0 <= x (panelUI (hud j')) <= 1000 /\ 0 <= y (panelUI (hud j')) <= 800.
Proof.
  destruct (pointer_panel_on_screen sqrt_floor 100 1000 800 pointerHand
              (mkVec2 0.3 0.5) (mkVec2 0.25 0.47) (mkVec2 0.25 0.5)
              (mkVec2 0.3 0.4) (Jarvis0 1000)) as (j' & E & Hp & _).
  - repeat split.
  - vm_compute. discriminate.
  - unfold normalized. cbn. lra.
  - vm_compute. discriminate.
  - vm_compute. discriminate.
  - exists j'. split; [exact E|]. apply Hp. vm_compute. reflexivity.
Defined.

Lemma onresult_unmatched_witness :
  onresult ascii_trim ascii_toLowerCase 5 " Hello there" (Jarvis0 1000) =
  with_hud (setHandStatus (cmdStatus ascii_trim ascii_toLowerCase " Hello there"))
           (Jarvis0 1000).
Proof.
  apply (onresult_unmatched ascii_trim ascii_toLowerCase 5 " Hello there"
           (Jarvis0 1000)).
  vm_compute. reflexivity.
Defined.

Lemma onresults_last_match_witness :
  earthRotation
    (hud (onresults ascii_trim ascii_toLowerCase
            ([(0%Z, "stop"%string)] ++ (1000%Z, "Go to Asia"%string)
               :: [(2000%Z, "hello"%string)])
            (Jarvis0 1000))) = mkVec2 0.2 2.0 /\
  lastCmdTimeRef
    (onresults ascii_trim ascii_toLowerCase
       ([(0%Z, "stop"%string)] ++ (1000%Z, "Go to Asia"%string)
          :: [(2000%Z, "hello"%string)])
       (Jarvis0 1000)) = 1000%Z.
Proof.
  apply (onresults_last_match ascii_trim ascii_toLowerCase
           [(0%Z, "stop"%string)] 1000 "Go to Asia" [(2000%Z, "hello"%string)]).
  - vm_compute. reflexivity.
  - repeat constructor.
Defined.

Lemma voice_hooks_agree_witness :
  earthRotation
    (hud (onresult ascii_trim ascii_toLowerCase 7 "Fly to Europe" (Jarvis0 1000))) =
  earthRotation
    (App_onresult ascii_trim ascii_toLowerCase ascii_toUpperCase "Fly to Europe"
       (hud (Jarvis0 1000))).
Proof.
  apply (voice_hooks_agree ascii_trim ascii_toLowerCase ascii_toUpperCase 7
           "Fly to Europe" (Jarvis0 1000)).
  repeat constructor.
Defined.

Lemma useFrame_shows_sector_witness :
  activeContinent (useFrame (set_earthRotation (mkVec2 0 2) (Hud0 1000)))
  = "EUROPE (欧洲)"%string.
Proof.
  apply (useFrame_shows_sector (set_earthRotation (mkVec2 0 2) (Hud0 1000))
           (adjustedRot (lerp 0 2 0.05))
           (mkContinent "EUROPE (欧洲)" (5.5, 6.28))).
  - reflexivity.
  - do 4 right. left. reflexivity.
  - split; vm_compute; [discriminate | reflexivity].
Defined.

Lemma rotation_stays_in_box_witness :
  exists j,
    run sqrt_floor ascii_trim ascii_toLowerCase
      [Voice 1000 "europe"; Hand 5000 1000 800 orientationHand; Render]
      (Jarvis0 1000) = Some j /\
    rotationOK (hud j).
Proof.
  eexists. split; [vm_compute; reflexivity|].
  apply (rotation_stays_in_box sqrt_floor ascii_trim ascii_toLowerCase
           [Voice 1000 "europe"; Hand 5000 1000 800 orientationHand; Render]
           (Jarvis0 1000)).
  - unfold rotationOK. cbn. lra.
  - constructor; [exact I|]. constructor; [|constructor; [exact I|constructor]].
    intros mid [= <-]. unfold normalized. cbn. lra.
  - vm_compute. reflexivity.
Defined.

Lemma sector_name_known_witness :
  exists j,
    run sqrt_floor ascii_trim ascii_toLowerCase
      [Render; Voice 1000 "asia"; Render; Render] (Jarvis0 1000) = Some j /\
    In (activeContinent (hud j)) sectorNames.
Proof.
  eexists. split; [vm_compute; reflexivity|].
  apply (sector_name_known sqrt_floor ascii_trim ascii_toLowerCase
           [Render; Voice 1000 "asia"; Render; Render] (Jarvis0 1000)).
  - left. reflexivity.
  - vm_compute. reflexivity.
Defined.

Lemma App_detectLoop_status_witness :
  exists h',
    App_detectLoop sqrt_floor 1000 800 [orientationHand; pointerHand]
      (App_onresult ascii_trim ascii_toLowerCase ascii_toUpperCase "asia" (Hud0 1000))
    = Some h' /\
    handStatus h' = "TARGETS: 2"%string.
Proof.
  eexists. split; [vm_compute; reflexivity|].
  apply (App_detectLoop_status sqrt_floor 1000 800 [orientationHand; pointerHand]
           (App_onresult ascii_trim ascii_toLowerCase ascii_toUpperCase "asia"
              (Hud0 1000))).
  - vm_compute. reflexivity.
  - discriminate.
Defined.

Lemma App_scale_stays_in_range_witness :
  exists h,
    App_run sqrt_floor ascii_trim ascii_toLowerCase ascii_toUpperCase
      [App_Voice "asia"; App_Detect 1000 800 [orientationHand]; App_Render]
      (Hud0 1000) = Some h /\
    scaleOK h.
Proof.
  eexists. split; [vm_compute; reflexivity|].
  apply (App_scale_stays_in_range sqrt_floor ascii_trim ascii_toLowerCase
           ascii_toUpperCase
           [App_Voice "asia"; App_Detect 1000 800 [orientationHand]; App_Render]
           (Hud0 1000)).
  - unfold scaleOK. cbn. lra.
  - vm_compute. reflexivity.
Defined.

Lemma App_gesture_overrides_voice_witness :
  exists h',
    App_processHand sqrt_floor 1000 800 orientationHand
      (App_onresult ascii_trim ascii_toLowerCase ascii_toUpperCase "asia" (Hud0 1000))
    = Some h' /\
    earthRotation h' = gestureRotation (mkVec2 0.75 0.25) /\
    earthScale h' = rawScale (getDistance sqrt_floor (mkVec2 0 0) (mkVec2 0.3 0.4)).
Proof.
  apply (App_gesture_overrides_voice sqrt_floor ascii_trim ascii_toLowerCase
           ascii_toUpperCase 1000 800 "asia" orientationHand
           (mkVec2 0.6 0.5) (mkVec2 0 0) (mkVec2 0.3 0.4) (mkVec2 0.75 0.25)
           (Hud0 1000)).
  - repeat split.
  - reflexivity.
Defined.
